(** * J.A.E.V.I.S. front end: the two [Home] pages and their event handlers

    The repository holds two variants of one React page:
    - Variant A, the log-oriented page: submits a prompt, waits 8 seconds,
      re-fetches the monitor's log feed; three health probes on mount;
    - Variant B, [src/app/page.tsx]: submits a prompt and shows the JSON
      answer; one health probe on mount.

    The embedding is shallow.  Component state is a record, a state setter is
    a record update, and an [async] function is cut at its [await]: the part
    before it returns the effects it issues, the part after it (suffix
    [_resume]) takes the settled promise.  Where [response.json()] is
    awaited right after the [fetch], the two are taken in one step: the code
    between them reads and writes no state, and a response carries what its
    body parses to.  A small event loop ([Loop]) owns the clock, the timers
    and the requests in flight. *)

From stdpp Require Import base option list gmap strings pretty.
From Stdlib Require Import ZArith NArith Ascii Lia.

Open Scope N_scope.
Set Warnings "-register-all".

(* ================================================================== *)
(** * JavaScript data *)
(* ================================================================== *)

Module Js.

(** A JavaScript string is a sequence of UTF-16 code units. *)
Abbreviation jstring := (list N).

(** A literal of the source text (all of them are ASCII). *)
Fixpoint lit (s : string) : jstring :=
  match s with
  | EmptyString => []
  | String a r => Ascii.N_of_ascii a :: lit r
  end.

#[global] Arguments lit : simpl never.

(** [WhiteSpace] of ECMAScript: TAB, VT, FF, ZWNBSP and the space
    separators (Unicode category Zs). *)
Definition is_white_space (c : N) : bool :=
  (c =? 0x0009) || (c =? 0x000B) || (c =? 0x000C) || (c =? 0xFEFF)
  || (c =? 0x0020) || (c =? 0x00A0) || (c =? 0x1680)
  || ((0x2000 <=? c) && (c <=? 0x200A))
  || (c =? 0x202F) || (c =? 0x205F) || (c =? 0x3000).

(** [LineTerminator] of ECMAScript: LF, CR, LS, PS. *)
Definition is_line_terminator (c : N) : bool :=
  (c =? 0x000A) || (c =? 0x000D) || (c =? 0x2028) || (c =? 0x2029).

(** The code units [String.prototype.trim] strips. *)
Definition strippable (c : N) : bool :=
  is_white_space c || is_line_terminator c.

Fixpoint trimStart (s : jstring) : jstring :=
  match s with
  | [] => []
  | c :: r => if strippable c then trimStart r else s
  end.

Definition trimEnd (s : jstring) : jstring :=
  reverse (trimStart (reverse s)).

(** [s.trim()] *)
Definition trim (s : jstring) : jstring := trimEnd (trimStart s).

(** The string is empty or made only of code units that [trim] strips. *)
Definition whitespace_only (s : jstring) : bool := forallb strippable s.

#[global] Arguments trim : simpl never.

(** A string is falsy exactly when it is empty. *)
Definition is_empty (s : jstring) : bool :=
  match s with [] => true | _ => false end.

(** A number that came out of [JSON.parse].  The pages never compute with
    one: they test it for truthiness and convert it to text, so it is kept
    as these two observations. *)
Record number := { num_zero : bool; num_text : jstring }.

(** A value produced by [JSON.parse].  An object is its member list in the
    order of the text; when a name occurs twice the later member wins. *)
Inductive json :=
| JNull
| JBool (b : bool)
| JNum (n : number)
| JStr (s : jstring)
| JArr (items : list json)
| JObj (members : list (jstring * json)).

(** What a [throw] or a rejected promise carries: an [Error] instance with
    its message, or some other value. *)
Inductive thrown :=
| ErrorObj (message : jstring)
| NonError.

(** The outcome of evaluating an expression, and of an awaited promise. *)
Inductive completion (A : Type) :=
| Normal (a : A)
| Throw (e : thrown).
Arguments Normal {A} a.
Arguments Throw {A} e.

#[global] Instance completion_ret : MRet completion := λ A a, Normal a.
#[global] Instance completion_bind : MBind completion := λ A B f c,
  match c with
  | Normal a => f a
  | Throw e => Throw e
  end.

(** [c.catch(() => d)] on a promise. *)
Definition catch_with {A} (c : completion A) (d : A) : A :=
  match c with
  | Normal a => a
  | Throw _ => d
  end.

(** [err instanceof Error ? err.message : fallback] *)
Definition message_or (err : thrown) (fallback : jstring) : jstring :=
  match err with
  | ErrorObj m => m
  | NonError => fallback
  end.

(** The messages of the [TypeError]s the engine itself raises; their text is
    not fixed by the language. *)
Record Engine := {
  null_property_message : jstring;  (* reading a property of [null] *)
  to_primitive_message : jstring    (* an object with no usable toString/valueOf *)
}.

(** The texts V8 uses. *)
Definition v8 : Engine := {|
  null_property_message := lit "Cannot read properties of null (reading 'error')";
  to_primitive_message := lit "Cannot convert object to primitive value"
|}.

(** ToBoolean on a parsed value. *)
Definition truthy (v : json) : bool :=
  match v with
  | JNull => false
  | JBool b => b
  | JNum n => negb (num_zero n)
  | JStr s => negb (is_empty s)
  | JArr _ => true
  | JObj _ => true
  end.

(** The own property [k] of a parsed object: the last member of that name. *)
Fixpoint member (k : jstring) (ms : list (jstring * json)) : option json :=
  match ms with
  | [] => None
  | (k', v) :: r =>
      match member k r with
      | Some w => Some w
      | None => if decide (k' = k) then Some v else None
      end
  end.

(** [v.error]; [None] is [undefined].  Only [null] throws: arrays, strings,
    numbers and booleans have no such property on their prototypes. *)
Definition get_error (eng : Engine) (v : json) : completion (option json) :=
  match v with
  | JNull => Throw (ErrorObj (null_property_message eng))
  | JObj ms => Normal (member (lit "error") ms)
  | _ => Normal None
  end.

(** ToString on a parsed value.  An array joins its elements with commas,
    [null] elements giving the empty string.  A plain object gives
    "[object Object]" through [Object.prototype.toString], unless it has an
    own member "toString": that member is not callable, and
    [Object.prototype.valueOf] (or an own "valueOf") yields no primitive, so
    the conversion throws. *)
Fixpoint to_string (eng : Engine) (v : json) : completion jstring :=
  match v with
  | JNull => Normal (lit "null")
  | JBool b => Normal (if b then lit "true" else lit "false")
  | JNum n => Normal (num_text n)
  | JStr s => Normal s
  | JArr items =>
      (fix join (first : bool) (l : list json) : completion jstring :=
         match l with
         | [] => Normal []
         | x :: r =>
             s ← match x with JNull => Normal [] | _ => to_string eng x end ;
             t ← join false r;
             Normal ((if first then [] else lit ",") ++ s ++ t)
         end) true items
  | JObj ms =>
      match member (lit "toString") ms with
      | Some _ => Throw (ErrorObj (to_primitive_message eng))
      | None => Normal (lit "[object Object]")
      end
  end.

(** [new Error(v)]: the message is ToString of the argument; a conversion
    that throws propagates. *)
Definition new_Error (eng : Engine) (v : json) : completion thrown :=
  m ← to_string eng v; Normal (ErrorObj m).

End Js.

(* ================================================================== *)
(** * fetch *)
(* ================================================================== *)

Module Http.
Import Js.

Inductive method := GET | POST.

(** A call of [fetch].  [req_body] is the value handed to
    [JSON.stringify] for the body, when there is one. *)
Record Request := {
  req_method : method;
  req_url : jstring;
  req_body : option json
}.

(** A response: its status code and what [response.json()] settles to
    (a parsed value, or the rejection of a body that does not parse). *)
Record Response := {
  status : N;
  json_body : completion json
}.

(** [response.ok]: the status is in the range 200-299. *)
Definition ok (r : Response) : bool :=
  (200 <=? status r) && (status r <=? 299).

(** How the promise of a [fetch] settles: fulfilled with a response of any
    status, or rejected (the network failed). *)
Inductive settled :=
| Fulfilled (r : Response)
| Rejected (e : thrown).

(** A network failure rejects the promise with a [TypeError]; browsers
    give it a message ("Failed to fetch", "Load failed", ...). *)
Definition network_error (e : thrown) : Prop :=
  ∃ c m, e = ErrorObj (c :: m).

(** A body that does not parse rejects [response.json()] with a
    [SyntaxError]; engines give it a message ("Unexpected end of JSON
    input", "Unexpected token < in JSON", ...). *)
Definition syntax_error (e : thrown) : Prop :=
  ∃ c m, e = ErrorObj (c :: m).

(** [await fetch(...)] *)
Definition await (o : settled) : completion Response :=
  match o with
  | Fulfilled r => Normal r
  | Rejected e => Throw e
  end.

(** [`${response.status}`] *)
Definition status_text (r : Response) : jstring := lit (pretty (status r)).
#[global] Arguments status_text : simpl never.

End Http.

(* ================================================================== *)
(** * The event loop *)
(* ================================================================== *)

Module Loop.
Import Js Http.

(** What a handler asks of the platform.  [k] names the code after the
    [await] of a fetch, [cb] the callback of a timer. *)
Inductive effect (K T : Type) :=
| PreventDefault
| Fetch (req : Request) (k : K)
| SetTimeout (cb : T) (ms : N).
Arguments PreventDefault {K T}.
Arguments Fetch {K T} req k.
Arguments SetTimeout {K T} cb ms.

(** A mounted component: its state, the effect of mounting it, and its
    handlers.  A handler that returns [None] is one the page does not offer
    in that state (a disabled control). *)
Record App := {
  state : Type;
  cont : Type;
  timer : Type;
  input : Type;
  initial : state;
  mount : N → list (effect cont timer);
  resume : N → cont → settled → state → state * list (effect cont timer);
  fire : N → timer → state → state * list (effect cont timer);
  handle : N → input → state → option (state * list (effect cont timer))
}.

Section Semantics.
Context (app : App).

(** A call of [fetch]: when it was issued, the request, the code waiting
    for it, and how and when it settled, once it has. *)
Record call := {
  call_time : N;
  call_request : Request;
  call_k : cont app;
  call_outcome : option (N * settled)
}.

(** The page in its environment: the clock in milliseconds, every fetch
    issued so far in order (a fetch's id is its position), and the timers
    still pending with the time they are due. *)
Record World := {
  ui : state app;
  now : N;
  issued : list call;
  timers : list (N * timer app)
}.

Definition with_ui (s : state app) (w : World) : World :=
  {| ui := s; now := now w; issued := issued w; timers := timers w |}.

Definition perform1 (w : World) (e : effect (cont app) (timer app)) : World :=
  match e with
  | PreventDefault => w
  | Fetch req k =>
      {| ui := ui w; now := now w;
         issued := issued w ++ [ {| call_time := now w; call_request := req;
                                    call_k := k; call_outcome := None |} ];
         timers := timers w |}
  | SetTimeout cb ms =>
      {| ui := ui w; now := now w; issued := issued w;
         timers := timers w ++ [(now w + ms, cb)] |}
  end.

Definition perform (es : list (effect (cont app) (timer app))) (w : World) : World :=
  foldl perform1 w es.

Definition settle_call (t : N) (o : settled) (c : call) : call :=
  {| call_time := call_time c; call_request := call_request c;
     call_k := call_k c; call_outcome := Some (t, o) |}.

Inductive event :=
| Tick (d : N)                       (* time passes *)
| Settle (id : nat) (o : settled)    (* the fetch [id] settles *)
| Fire (i : nat)                     (* the [i]-th pending timer goes off *)
| User (u : input app).              (* the user acts on a control *)

(** One turn of the loop.  A fetch settles once; a timer goes off only when
    its delay has elapsed. *)
Definition step (w : World) (ev : event) : option World :=
  match ev with
  | Tick d =>
      Some {| ui := ui w; now := now w + d; issued := issued w; timers := timers w |}
  | Settle id o =>
      match issued w !! id with
      | Some c =>
          match call_outcome c with
          | None =>
              let '(s, es) := resume app (now w) (call_k c) o (ui w) in
              Some (perform es
                      {| ui := s; now := now w;
                         issued := <[id := settle_call (now w) o c]> (issued w);
                         timers := timers w |})
          | Some _ => None
          end
      | None => None
      end
  | Fire i =>
      match timers w !! i with
      | Some (due, cb) =>
          if due <=? now w then
            let '(s, es) := fire app (now w) cb (ui w) in
            Some (perform es
                    {| ui := s; now := now w; issued := issued w;
                       timers := delete i (timers w) |})
          else None
      | None => None
      end
  | User u =>
      match handle app (now w) u (ui w) with
      | Some (s, es) => Some (perform es (with_ui s w))
      | None => None
      end
  end.

Fixpoint run (w : World) (evs : list event) : option World :=
  match evs with
  | [] => Some w
  | ev :: r =>
      match step w ev with
      | Some w' => run w' r
      | None => None
      end
  end.

(** The page right after it is mounted at time [t0]. *)
Definition boot (t0 : N) : World :=
  perform (mount app t0)
    {| ui := initial app; now := t0; issued := []; timers := [] |}.

(** A world the page can be in. *)
Definition reachable (w : World) : Prop :=
  ∃ t0 evs, run (boot t0) evs = Some w.

End Semantics.

Arguments call_time {app} c.
Arguments call_request {app} c.
Arguments call_k {app} c.
Arguments call_outcome {app} c.
Arguments ui {app} w.
Arguments now {app} w.
Arguments issued {app} w.
Arguments timers {app} w.
Arguments Tick {app} d.
Arguments Settle {app} id o.
Arguments Fire {app} i.
Arguments User {app} u.
Arguments step {app} w ev.
Arguments run {app} w evs.
Arguments reachable {app} w.

End Loop.

(** [type ServiceStatus = 'ok' | 'error' | 'loading'] (both pages) *)
Inductive ServiceStatus := StatusOk | StatusError | StatusLoading.

(** [response.ok ? 'ok' : 'error'], and ['error'] in the [catch]. *)
Definition probe_status (o : Http.settled) : ServiceStatus :=
  match o with
  | Http.Fulfilled r => if Http.ok r then StatusOk else StatusError
  | Http.Rejected _ => StatusError
  end.

(* ================================================================== *)
(** * Variant A: the log-oriented page *)
(* ================================================================== *)

Module VariantA.
Import Js Http Loop.

Definition SUPERVISOR_URL : jstring :=
  lit "https://supervisor-service-497428235894.asia-northeast1.run.app/".
Definition MONITOR_URL : jstring :=
  lit "https://monitor-service-497428235894.asia-northeast1.run.app/logs".

(** The state of [Home]: one field per [useState]. *)
Record Home := {
  prompt : jstring;
  logs : json;
  isLoading : bool;
  error : option jstring;
  statuses : gmap string ServiceStatus
}.

Definition setPrompt (v : jstring) (st : Home) : Home :=
  {| prompt := v; logs := logs st; isLoading := isLoading st;
     error := error st; statuses := statuses st |}.
Definition setLogs (v : json) (st : Home) : Home :=
  {| prompt := prompt st; logs := v; isLoading := isLoading st;
     error := error st; statuses := statuses st |}.
Definition setIsLoading (v : bool) (st : Home) : Home :=
  {| prompt := prompt st; logs := logs st; isLoading := v;
     error := error st; statuses := statuses st |}.
Definition setError (v : option jstring) (st : Home) : Home :=
  {| prompt := prompt st; logs := logs st; isLoading := isLoading st;
     error := v; statuses := statuses st |}.
Definition setStatuses (f : gmap string ServiceStatus → gmap string ServiceStatus)
    (st : Home) : Home :=
  {| prompt := prompt st; logs := logs st; isLoading := isLoading st;
     error := error st; statuses := f (statuses st) |}.

Definition initial_state : Home := {|
  prompt := [];
  logs := JArr [];
  isLoading := false;
  error := None;
  statuses := {[ "supervisor" := StatusLoading;
                 "orchestrator" := StatusLoading;
                 "monitor" := StatusLoading ]}
|}.

(** The code after each [await]. *)
Inductive cont :=
| AwaitLogs (and_finally : bool)
    (* [fetchLogs], line 55; [true] for the call of line 106, which chains
       [.finally(() => setIsLoading(false))] *)
| AwaitProbe (name : string) (rest : list (string * jstring))
    (* [checkServiceStatus], line 72, in the iteration for [name]; [rest]
       are the entries the loop has still to visit *)
| AwaitPost.
    (* [handleSubmit], line 94 *)

(** The callback of line 105. *)
Inductive timer := Refetch.

Abbreviation eff := (effect cont timer).

(** ** fetchLogs *)

Definition logs_request (t : N) : Request := {|
  req_method := GET;
  req_url := MONITOR_URL ++ lit "?limit=20&t=" ++ lit (pretty t);
  req_body := None
|}.

(** Up to the [await] of line 55; [t] is [new Date().getTime()]. *)
Definition fetchLogs (t : N) (and_finally : bool) : list eff :=
  [Fetch (logs_request t) (AwaitLogs and_finally)].

(** Lines 55-58, the body of the [try]. *)
Definition fetchLogs_try (o : settled) : completion json :=
  response ← await o;
  if negb (ok response) then Throw (ErrorObj (lit "Failed to fetch logs"))
  else json_body response.

(** Lines 55-61, from the settled fetch on. *)
Definition fetchLogs_resume (o : settled) (st : Home) : Home :=
  match fetchLogs_try o with
  | Normal data => setLogs data st
  | Throw err => setError (Some (message_or err (lit "An unknown error occurred"))) st
  end.

(** ** checkServiceStatus *)

Definition services : list (string * jstring) :=
  [ ("supervisor", lit "https://supervisor-service-497428235894.asia-northeast1.run.app/health");
    ("orchestrator", lit "https://orchestrator-service-497428235894.asia-northeast1.run.app/health");
    ("monitor", lit "https://monitor-service-497428235894.asia-northeast1.run.app/logs") ].

Definition probe_request (url : jstring) : Request :=
  {| req_method := GET; req_url := url; req_body := None |}.

(** The [for] loop of line 70 at the head of an iteration: fetch the next
    entry and wait for it, or fall out of the loop. *)
Definition probe_loop (entries : list (string * jstring)) : list eff :=
  match entries with
  | [] => []
  | (name, url) :: rest => [Fetch (probe_request url) (AwaitProbe name rest)]
  end.

Definition checkServiceStatus : list eff := probe_loop services.

(** Lines 72-76 from the settled fetch on, then the next iteration. *)
Definition checkServiceStatus_resume (name : string) (rest : list (string * jstring))
    (o : settled) (st : Home) : Home * list eff :=
  (setStatuses (λ prev, <[name := probe_status o]> prev) st, probe_loop rest).

(** ** handleSubmit *)

Definition post_request (p : jstring) : Request := {|
  req_method := POST;
  req_url := SUPERVISOR_URL;
  req_body := Some (JObj [(lit "prompt", JStr p)])
|}.

(** Lines 87-98: up to the [await]. *)
Definition handleSubmit (st : Home) : Home * list eff :=
  if is_empty (trim (prompt st)) then (st, [PreventDefault])
  else (setError None (setIsLoading true st),
        [PreventDefault; Fetch (post_request (prompt st)) AwaitPost]).

(** Lines 94-102, the part of the [try] that can throw. *)
Definition handleSubmit_try (o : settled) : completion unit :=
  response ← await o;
  if negb (ok response) then
    Throw (ErrorObj (lit "Supervisor request failed with status " ++ status_text response))
  else Normal ().

(** Lines 94-112, from the settled fetch on. *)
Definition handleSubmit_resume (o : settled) (st : Home) : Home * list eff :=
  match handleSubmit_try o with
  | Normal _ => (st, [SetTimeout Refetch 8000])
  | Throw err =>
      (setIsLoading false
         (setError (Some (message_or err (lit "Failed to submit prompt"))) st), [])
  end.

(** ** The page as a component *)

Inductive input :=
| Submit                    (* the form is submitted *)
| Change (value : jstring)  (* the textarea is edited *)
| Refresh.                  (* the refresh button of [LogViewer] *)

(** [disabled={isLoading}] on the textarea and on the submit button. *)
Definition disabled (st : Home) : bool := isLoading st.

Definition on_input (t : N) (u : input) (st : Home) : option (Home * list eff) :=
  match u with
  | Submit => if disabled st then None else Some (handleSubmit st)
  | Change v => if disabled st then None else Some (setPrompt v st, [])
  | Refresh => Some (st, fetchLogs t false)
  end.

Definition on_settle (t : N) (k : cont) (o : settled) (st : Home) : Home * list eff :=
  match k with
  | AwaitLogs and_finally =>
      let st' := fetchLogs_resume o st in
      (if and_finally then setIsLoading false st' else st', [])
  | AwaitProbe name rest => checkServiceStatus_resume name rest o st
  | AwaitPost => handleSubmit_resume o st
  end.

(** Line 106: [fetchLogs().finally(...)]. *)
Definition on_timer (t : N) (cb : timer) (st : Home) : Home * list eff :=
  match cb with
  | Refetch => (st, fetchLogs t true)
  end.

(** Lines 80-83: the effect run once on mount. *)
Definition useEffect (t : N) : list eff := fetchLogs t false ++ checkServiceStatus.

Definition app : App := {|
  Loop.state := Home; Loop.cont := cont; Loop.timer := timer; Loop.input := input;
  initial := initial_state;
  mount := useEffect;
  resume := on_settle;
  fire := on_timer;
  handle := on_input
|}.

Abbreviation user u := (@User app u).

#[global] Arguments logs_request : simpl never.
#[global] Arguments fetchLogs_resume : simpl never.
#[global] Arguments handleSubmit : simpl never.
#[global] Arguments handleSubmit_resume : simpl never.
#[global] Arguments services : simpl never.

(** [{error && <p>Error: {error}</p>}]: the message on the page, if any. *)
Definition error_line (st : Home) : option jstring :=
  match error st with
  | Some m => if is_empty m then None else Some m
  | None => None
  end.

End VariantA.

(* ================================================================== *)
(** * Variant A: one entry of the log list *)
(* ================================================================== *)

Module LogItem.
Import Js Http Loop.

(** [type Log] *)
Record Log := {
  id : jstring;
  user_prompt : jstring;
  summary : jstring;
  ai_outputs : list (jstring * jstring);
  timestamp : jstring
}.

(** The two captions of the button of line 224. *)
Inductive caption :=
| CloseDetails   (* shown while expanded *)
| ShowDetails.   (* shown while collapsed *)

(** What [LogItem] puts on the page: the head (the timestamp as the host
    prints it, prompt, summary), the caption of the button, and, when
    expanded, the mapping given to [JSON.stringify(log.ai_outputs, null, 2)]. *)
Record View := {
  head : jstring * jstring * jstring;
  button : caption;
  details : option (list (jstring * jstring))
}.

(** Lines 216-236.  [toLocaleString s] is [new Date(s).toLocaleString()]
    of line 220: its text depends on the locale and the time zone of the
    host, so it is a parameter. *)
Definition render (toLocaleString : jstring → jstring)
    (log : Log) (isExpanded : bool) : View := {|
  head := (toLocaleString (timestamp log), user_prompt log, summary log);
  button := if isExpanded then CloseDetails else ShowDetails;
  details := if isExpanded then Some (ai_outputs log) else None
|}.

(** [onClick={() => setIsExpanded(!isExpanded)}] *)
Definition onClick (isExpanded : bool) : bool * list (effect Empty_set Empty_set) :=
  (negb isExpanded, []).

Inductive input := Click.

Definition app : App := {|
  Loop.state := bool; Loop.cont := Empty_set; Loop.timer := Empty_set;
  Loop.input := input;
  initial := false;
  mount := λ _, [];
  resume := λ _ k, match k with end;
  fire := λ _ cb, match cb with end;
  handle := λ _ u st, match u with Click => Some (onClick st) end
|}.

Abbreviation user u := (@User app u).

End LogItem.

(* ================================================================== *)
(** * Variant B: the single-response page, [src/app/page.tsx] *)
(* ================================================================== *)

Module VariantB.
Import Js Http Loop.

Definition SUPERVISOR_URL : jstring :=
  lit "https://jaevis-orchestrator-4mlg2xcs5q-an.a.run.app".

(** The state of [Home].  [lastResponse] starts as [null], which is also
    what a body that is the JSON text [null] sets it to. *)
Record Home := {
  prompt : jstring;
  lastResponse : json;
  isLoading : bool;
  error : option jstring;
  statuses : gmap string ServiceStatus
}.

Definition setPrompt (v : jstring) (st : Home) : Home :=
  {| prompt := v; lastResponse := lastResponse st; isLoading := isLoading st;
     error := error st; statuses := statuses st |}.
Definition setLastResponse (v : json) (st : Home) : Home :=
  {| prompt := prompt st; lastResponse := v; isLoading := isLoading st;
     error := error st; statuses := statuses st |}.
Definition setIsLoading (v : bool) (st : Home) : Home :=
  {| prompt := prompt st; lastResponse := lastResponse st; isLoading := v;
     error := error st; statuses := statuses st |}.
Definition setError (v : option jstring) (st : Home) : Home :=
  {| prompt := prompt st; lastResponse := lastResponse st; isLoading := isLoading st;
     error := v; statuses := statuses st |}.
Definition setStatuses (v : gmap string ServiceStatus) (st : Home) : Home :=
  {| prompt := prompt st; lastResponse := lastResponse st; isLoading := isLoading st;
     error := error st; statuses := v |}.

Definition initial_state : Home := {|
  prompt := [];
  lastResponse := JNull;
  isLoading := false;
  error := None;
  statuses := {[ "supervisor" := StatusLoading ]}
|}.

(** [type AiOutputs = Record<string, string>] as a parsed value. *)
Definition AiOutputs (m : list (jstring * jstring)) : json :=
  JObj ((λ kv, (kv.1, JStr kv.2)) <$> m).

Inductive cont :=
| AwaitProbe   (* [checkServiceStatus], line 40 *)
| AwaitPost.   (* [handleSubmit], line 61 *)

Abbreviation eff := (effect cont Empty_set).

(** ** checkServiceStatus *)

Definition probe_request : Request := {|
  req_method := GET;
  req_url := SUPERVISOR_URL ++ lit "/health";
  req_body := None
|}.

Definition checkServiceStatus : list eff := [Fetch probe_request AwaitProbe].

(** Lines 40-44 from the settled fetch on. *)
Definition checkServiceStatus_resume (o : settled) (st : Home) : Home :=
  setStatuses {[ "supervisor" := probe_status o ]} st.

(** ** handleSubmit *)

Definition post_request (p : jstring) : Request := {|
  req_method := POST;
  req_url := SUPERVISOR_URL;
  req_body := Some (JObj [(lit "prompt", JStr p)])
|}.

(** Lines 53-65: up to the [await]. *)
Definition handleSubmit (st : Home) : Home * list eff :=
  if is_empty (trim (prompt st)) then (st, [PreventDefault])
  else (setLastResponse JNull (setError None (setIsLoading true st)),
        [PreventDefault; Fetch (post_request (prompt st)) AwaitPost]).

(** [`Request failed with status ${response.status}`] *)
Definition status_message (r : Response) : jstring :=
  lit "Request failed with status " ++ status_text r.

(** [a || b] where [a] may be [undefined]. *)
Definition or_else (a : option json) (b : json) : json :=
  match a with
  | Some v => if truthy v then v else b
  | None => b
  end.

Section Engine.
Context (eng : Engine).

(** Lines 67-70: the response is not ok. *)
Definition failed_response (response : Response) : completion json :=
  let errorData :=
    catch_with (json_body response)
      (JObj [(lit "error", JStr (status_message response))]) in
  field ← get_error eng errorData;
  err ← new_Error eng (or_else field (JStr (status_message response)));
  Throw err.

(** Lines 61-72, the part of the [try] that can throw; its value is
    [data]. *)
Definition handleSubmit_try (o : settled) : completion json :=
  response ← await o;
  if negb (ok response) then failed_response response
  else json_body response.

(** Lines 61-80, from the settled fetch on: [try], [catch], [finally]. *)
Definition handleSubmit_resume (o : settled) (st : Home) : Home * list eff :=
  let st' :=
    match handleSubmit_try o with
    | Normal data => setPrompt [] (setLastResponse data st)
    | Throw err => setError (Some (message_or err (lit "Failed to submit prompt"))) st
    end in
  (setIsLoading false st', []).

(** ** The page as a component *)

Inductive input :=
| Submit
| Change (value : jstring).

(** [disabled={isLoading}] on the textarea and on the submit button. *)
Definition disabled (st : Home) : bool := isLoading st.

Definition on_input (t : N) (u : input) (st : Home) : option (Home * list eff) :=
  match u with
  | Submit => if disabled st then None else Some (handleSubmit st)
  | Change v => if disabled st then None else Some (setPrompt v st, [])
  end.

Definition on_settle (t : N) (k : cont) (o : settled) (st : Home) : Home * list eff :=
  match k with
  | AwaitProbe => (checkServiceStatus_resume o st, [])
  | AwaitPost => handleSubmit_resume o st
  end.

(** Lines 47-49: the effect run once on mount. *)
Definition useEffect (t : N) : list eff := checkServiceStatus.

Definition app : App := {|
  Loop.state := Home; Loop.cont := cont; Loop.timer := Empty_set;
  Loop.input := input;
  initial := initial_state;
  mount := useEffect;
  resume := on_settle;
  fire := λ _ cb, match cb with end;
  handle := on_input
|}.

End Engine.

Abbreviation user eng u := (@User (app eng) u).

#[global] Arguments status_message : simpl never.
#[global] Arguments handleSubmit : simpl never.
#[global] Arguments handleSubmit_resume : simpl never.
#[global] Arguments handleSubmit_try : simpl never.
#[global] Arguments failed_response : simpl never.

(** [{error && <p>Error: {error}</p>}]: the message on the page, if any. *)
Definition error_line (st : Home) : option jstring :=
  match error st with
  | Some m => if is_empty m then None else Some m
  | None => None
  end.

(** [ResponseViewer]: nothing for a falsy [response], else the panel with
    [JSON.stringify(response, null, 2)]; the result is the value that is
    printed. *)
Definition ResponseViewer (response : json) : option json :=
  if truthy response then Some response else None.

End VariantB.

(* ================================================================== *)
(** * Examples *)
(* ================================================================== *)

Module Examples.
Import Js Http Loop.

Definition status_report : jstring := lit "status report".

(** Variant B after the user typed "status report" and submitted it. *)
Definition submitted_B : World (VariantB.app v8) :=
  default (boot _ 0)
    (run (boot (VariantB.app v8) 0)
       [VariantB.user v8 (VariantB.Change status_report); Tick 10;
        VariantB.user v8 VariantB.Submit]).

Definition agents : list (jstring * jstring) :=
  [(lit "agent1", lit "done"); (lit "agent2", lit "pending")].

Definition ok_agents : Response :=
  {| status := 200; json_body := Normal (VariantB.AiOutputs agents) |}.

(** A response of status 500 with the body [v]. *)
Definition http500 (v : json) : Response :=
  {| status := 500; json_body := Normal v |}.

(** The body [{"error": ""}]. *)
Definition empty_error : json := JObj [(lit "error", JStr [])].

(** The body [{"error": []}]. *)
Definition array_error : json := JObj [(lit "error", JArr [])].

(** A prompt of a space, an ideographic space, a line feed and a tab. *)
Definition blank : jstring := [0x20; 0x3000; 0x0A; 0x09].

(** Variant A and Variant B with the blank prompt in the textarea. *)
Definition blank_A : World VariantA.app :=
  default (boot _ 0) (run (boot VariantA.app 0) [VariantA.user (VariantA.Change blank)]).
Definition blank_B : World (VariantB.app v8) :=
  default (boot _ 0)
    (run (boot (VariantB.app v8) 0) [VariantB.user v8 (VariantB.Change blank)]).

(** Variant A after the user typed "status report". *)
Definition typed_A : World VariantA.app :=
  default (boot _ 0)
    (run (boot VariantA.app 0) [VariantA.user (VariantA.Change status_report)]).

(** ... and submitted it ten milliseconds later: the POST is the call 2. *)
Definition submitted_A : World VariantA.app :=
  default (boot _ 0)
    (run typed_A [Tick 10; VariantA.user VariantA.Submit]).

Definition post_A : call VariantA.app :=
  Build_call VariantA.app 10 (VariantA.post_request status_report) VariantA.AwaitPost None.

Definition post_B : call (VariantB.app v8) :=
  Build_call (VariantB.app v8) 10 (VariantB.post_request status_report) VariantB.AwaitPost None.

(** Responses and a network failure. *)
Definition ok200 : Response := {| status := 200; json_body := Normal (JObj []) |}.
Definition unavailable503 : Response :=
  {| status := 503; json_body := Throw (ErrorObj (lit "Unexpected token < in JSON")) |}.
Definition failed_to_fetch : thrown := ErrorObj (lit "Failed to fetch").

(** Two log entries as the monitor returns them. *)
Definition two_logs : list json :=
  [ JObj [(lit "id", JStr (lit "a1")); (lit "summary", JStr (lit "done"))];
    JObj [(lit "id", JStr (lit "a2")); (lit "summary", JStr (lit "pending"))] ].
Definition ok_logs : Response := {| status := 200; json_body := Normal (JArr two_logs) |}.

(** The one entry the monitor returned before those, and a 200 whose body
    was cut short on the way. *)
Definition earlier_logs : list json :=
  [ JObj [(lit "id", JStr (lit "z9")); (lit "summary", JStr (lit "archived"))] ].
Definition ok_earlier_logs : Response :=
  {| status := 200; json_body := Normal (JArr earlier_logs) |}.
Definition truncated200 : Response :=
  {| status := 200; json_body := Throw (ErrorObj (lit "Unexpected end of JSON input")) |}.

(** Variant A once the fetch of the mount (the call 0) has brought the
    earlier entry: the page lists it. *)
Definition listed_A : World VariantA.app :=
  default (boot _ 0)
    (run (boot VariantA.app 0) [Tick 5; Settle 0 (Fulfilled ok_earlier_logs)]).

(** The schedule in which the POST comes back ok at time 10, the timer goes
    off 8000 ms later and the re-fetch comes back at time 8110. *)
Definition refetch_schedule : list (event VariantA.app) :=
  [Settle 2 (Fulfilled ok200); Tick 8000; Fire 0; Tick 100; Settle 3 (Fulfilled ok_logs)].

(** Variant A once its three probes have settled: the supervisor answered
    200, the orchestrator could not be reached, the monitor answered 503. *)
Definition probed_A : World VariantA.app :=
  default (boot _ 0)
    (run (boot VariantA.app 0)
       [Tick 40; Settle 1 (Fulfilled ok200);
        Tick 30; Settle 2 (Rejected failed_to_fetch);
        Tick 20; Settle 3 (Fulfilled unavailable503)]).

(** Variant B once its probe has settled with a 200. *)
Definition probed_B : World (VariantB.app v8) :=
  default (boot _ 0)
    (run (boot (VariantB.app v8) 0) [Tick 40; Settle 0 (Fulfilled ok200)]).

(** The body [{"error": "quota exceeded"}]. *)
Definition quota_error : json := JObj [(lit "error", JStr (lit "quota exceeded"))].

Definition a_log : LogItem.Log := {|
  LogItem.id := lit "a1";
  LogItem.user_prompt := status_report;
  LogItem.summary := lit "done";
  LogItem.ai_outputs := agents;
  LogItem.timestamp := lit "2025-01-01T00:00:00Z"
|}.

End Examples.


(* ================================================================== *)
(** * What is observed of a world of Variant A *)
(* ================================================================== *)

Module Observe.
Import Js Http Loop.

Abbreviation worldA := (World VariantA.app).
Abbreviation callA := (call VariantA.app).

(** The call is in flight and the submit control stays disabled until it
    settles: the POST of [handleSubmit], or the re-fetch of line 106. *)
Definition holds_lock (c : callA) : bool :=
  match call_outcome c, call_k c with
  | None, VariantA.AwaitPost => true
  | None, VariantA.AwaitLogs true => true
  | _, _ => false
  end.

Definition holders (w : worldA) : list callA := filter (λ c, holds_lock c = true) (issued w).

(** The number of things that will re-enable the submit control: the calls
    that hold it, and the pending timers. *)
Definition tokens (w : worldA) : nat := length (holders w) + length (timers w).

(** The call is the re-fetch of line 106. *)
Definition is_refetch (c : callA) : bool :=
  match call_k c with
  | VariantA.AwaitLogs true => true
  | _ => false
  end.

(** The times at which a re-fetch was issued, among the calls of id [n]
    and later. *)
Definition refetch_times (n : nat) (w : worldA) : list N :=
  call_time <$> filter (λ c, is_refetch c = true) (drop n (issued w)).

(** The call is a fetch of the log feed other than that re-fetch: the one
    made on mount, or one made by the refresh button. *)
Definition is_plain_fetch (c : callA) : bool :=
  match call_k c with
  | VariantA.AwaitLogs false => true
  | _ => false
  end.

(** The times at which such a fetch was issued, among the calls of id [n]
    and later. *)
Definition plain_fetch_times (n : nat) (w : worldA) : list N :=
  call_time <$> filter (λ c, is_plain_fetch c = true) (drop n (issued w)).

(** The re-fetches in flight. *)
Definition pending_refetches (w : worldA) : list callA :=
  filter (λ c, is_refetch c = true ∧ call_outcome c = None) (issued w).

(** [w'] shows the same as [w] of what the submission flow depends on. *)
Definition same_flow (n : nat) (w w' : worldA) : Prop :=
  timers w' = timers w
  ∧ holders w' = holders w
  ∧ refetch_times n w' = refetch_times n w
  ∧ VariantA.isLoading (ui w') = VariantA.isLoading (ui w)
  ∧ now w ≤ now w'
  ∧ (length (issued w) ≤ length (issued w'))%nat.

(** The call that the timer of line 105 issues at time [t]. *)
Definition refetch_call (t : N) : callA :=
  Build_call VariantA.app t (VariantA.logs_request t) (VariantA.AwaitLogs true) None.

(** Where a submission of Variant A stands after its POST came back ok.
    [n] is the number of calls issued up to then and [due] the time at which
    the timer of line 105 is due. *)
Inductive flow (n : nat) (due : N) (w : worldA) : Prop :=
| Waiting :
    (* the timer is pending, nothing has been re-fetched *)
    timers w = [(due, VariantA.Refetch)] →
    holders w = [] →
    refetch_times n w = [] →
    VariantA.isLoading (ui w) = true →
    (n ≤ length (issued w))%nat →
    flow n due w
| Refreshing (c : callA) :
    (* the timer went off at [call_time c] and the re-fetch is in flight *)
    timers w = [] →
    holders w = [c] →
    is_refetch c = true →
    refetch_times n w = [call_time c] →
    due ≤ call_time c →
    call_time c ≤ now w →
    VariantA.isLoading (ui w) = true →
    (n ≤ length (issued w))%nat →
    flow n due w
| Finished (t : N) :
    (* the re-fetch issued at [t] has settled *)
    timers w = [] →
    holders w = [] →
    refetch_times n w = [t] →
    due ≤ t →
    t ≤ now w →
    VariantA.isLoading (ui w) = false →
    (n ≤ length (issued w))%nat →
    flow n due w.

(** The event is not a submission of the form. *)
Definition not_submit (ev : event VariantA.app) : Prop :=
  ev ≠ VariantA.user VariantA.Submit.

(** The event is not a click on the refresh button. *)
Definition not_refresh (ev : event VariantA.app) : Prop :=
  ev ≠ VariantA.user VariantA.Refresh.

(** The event is not an edit of the textarea. *)
Definition not_change (ev : event VariantA.app) : Prop :=
  ∀ v, ev ≠ VariantA.user (VariantA.Change v).

(** A health probe as the loop saw it: the service, the entries still to
    visit, when it was issued, and when and how it settled. *)
Definition probe_view (c : callA)
    : option (string * list (string * jstring) * N * option (N * settled)) :=
  match call_k c with
  | VariantA.AwaitProbe name rest => Some (name, rest, call_time c, call_outcome c)
  | _ => None
  end.

(** The health probes issued so far, in order. *)
Definition probe_trace (w : worldA)
    : list (string * list (string * jstring) * N * option (N * settled)) :=
  omap probe_view (issued w).

(** The probes of a loop over [entries] that started at time [t] and whose
    fetches have settled as [outs] so far: one probe at a time, each issued
    when the one before it settled. *)
Fixpoint sequential (t : N) (entries : list (string * jstring))
    (outs : list (N * settled))
    : list (string * list (string * jstring) * N * option (N * settled)) :=
  match entries with
  | [] => []
  | (name, _) :: rest =>
      match outs with
      | [] => [(name, rest, t, None)]
      | (t', o) :: outs' => (name, rest, t, Some (t', o)) :: sequential t' rest outs'
      end
  end.

(** The indicator of the [i]-th service, given the outcomes so far. *)
Definition indicator (outs : list (N * settled)) (i : nat) : ServiceStatus :=
  match outs !! i with
  | Some (_, o) => probe_status o
  | None => StatusLoading
  end.

(** The probes were made one after the other and the indicators show
    their outcomes. *)
Definition probes_in_sequence (w : worldA) : Prop :=
  ∃ t0 outs,
    probe_trace w = sequential t0 VariantA.services outs
    ∧ ∀ i name url, VariantA.services !! i = Some (name, url) →
        VariantA.statuses (ui w) !! name = Some (indicator outs i).


(** The probe of service [name] has been issued. *)
Definition probe_issued (w : worldA) (name : string) : Prop :=
  ∃ rest t out, (name, rest, t, out) ∈ probe_trace w.

(** The probe of service [name] has settled. *)
Definition probe_settled (w : worldA) (name : string) : Prop :=
  ∃ rest t t' o, (name, rest, t, Some (t', o)) ∈ probe_trace w.

(** Variant B: the health probe as the loop saw it. *)
Definition probe_view_B {eng} (c : call (VariantB.app eng)) : option (N * option (N * settled)) :=
  match call_k c with
  | VariantB.AwaitProbe => Some (call_time c, call_outcome c)
  | VariantB.AwaitPost => None
  end.

Definition probe_trace_B {eng} (w : World (VariantB.app eng))
    : list (N * option (N * settled)) :=
  omap probe_view_B (issued w).

(** Variant B: the indicator, given how the probe stands. *)
Definition indicator_B (out : option (N * settled)) : ServiceStatus :=
  match out with
  | Some (_, o) => probe_status o
  | None => StatusLoading
  end.

(** Variant B: one probe was made, and the indicator shows how it stands. *)
Definition probed_once {eng} (w : World (VariantB.app eng)) : Prop :=
  ∃ t0 out,
    probe_trace_B w = [(t0, out)]
    ∧ VariantB.statuses (ui w) = {[ "supervisor" := indicator_B out ]}.

End Observe.

(* ================================================================== *)
(** * The wording of the specification, where it is compared with the code *)
(* ================================================================== *)

Module Wording.
Import Js Http Loop.

(** [v.error] for a value that is not [null]. *)
Definition error_field (v : json) : option json :=
  match v with
  | JObj ms => member (lit "error") ms
  | _ => None
  end.

(** The message a failed response should give in Variant B, in the words
    of the specification: the [error] field of the body when the body
    parses as JSON and has one, and otherwise "Request failed with status
    N".  The words fix the message for a field that is a string; for a
    field of another type any message is accepted here. *)
Definition spec_error_message (r : Response) (m : jstring) : Prop :=
  match json_body r with
  | Normal v =>
      match error_field v with
      | Some (JStr s) => m = s
      | Some _ => True
      | None => m = VariantB.status_message r
      end
  | Throw _ => m = VariantB.status_message r
  end.

(** The log feed fetcher replaces the list on every 2xx response, in the
    words of the specification: whatever the page listed before, after a
    2xx response it lists what was fetched, which the response alone
    fixes ([fetched r]), with nothing kept of the prior list. *)
Definition replaces_on_every_2xx : Prop :=
  ∃ fetched : Response → json,
    ∀ t and_finally st r, ok r = true →
      VariantA.logs
        (VariantA.on_settle t (VariantA.AwaitLogs and_finally) (Fulfilled r) st).1
      = fetched r.

(** The health probes of Variant A are unordered, in the words of the
    specification: no probe's issuance is sequenced after another probe's
    completion.  So for any two services, the probe of the one can be
    issued while the probe of the other has not settled. *)
Definition probes_unordered : Prop :=
  ∀ p q, p ∈ VariantA.services.*1 → q ∈ VariantA.services.*1 → p ≠ q →
    ∃ w, reachable w ∧ Observe.probe_issued w p ∧ ¬ Observe.probe_settled w q.

End Wording.


(* ================================================================== *)
(** * What the pages send, and when they are busy *)
(* ================================================================== *)

Module Traffic.
Import Js Http Loop Observe.

Abbreviation worldB eng := (World (VariantB.app eng)).
Abbreviation callB eng := (call (VariantB.app eng)).

(** The call [handleSubmit] of Variant A issues at time [t] for the prompt
    [p]. *)
Definition post_call_A (t : N) (p : jstring) : callA :=
  Build_call VariantA.app t (VariantA.post_request p) VariantA.AwaitPost None.

(** The call [handleSubmit] of Variant B issues at time [t] for the prompt
    [p]. *)
Definition post_call_B (eng : Engine) (t : N) (p : jstring) : callB eng :=
  Build_call (VariantB.app eng) t (VariantB.post_request p) VariantB.AwaitPost None.

(** Variant A: the request of a call is the one its call site builds. *)
Definition sent_by_A (c : callA) : Prop :=
  match call_k c with
  | VariantA.AwaitLogs _ => call_request c = VariantA.logs_request (call_time c)
  | VariantA.AwaitProbe name rest =>
      ∃ pre url, VariantA.services = pre ++ (name, url) :: rest
                 ∧ call_request c = VariantA.probe_request url
  | VariantA.AwaitPost =>
      ∃ p, whitespace_only p = false ∧ call_request c = VariantA.post_request p
  end.

(** Variant B: the request of a call is the one its call site builds. *)
Definition sent_by_B {eng} (c : callB eng) : Prop :=
  match call_k c with
  | VariantB.AwaitProbe => call_request c = VariantB.probe_request
  | VariantB.AwaitPost =>
      ∃ p, whitespace_only p = false ∧ call_request c = VariantB.post_request p
  end.

(** Variant B: the POSTs in flight. *)
Definition post_in_flight_B {eng} (c : callB eng) : bool :=
  match call_outcome c, call_k c with
  | None, VariantB.AwaitPost => true
  | _, _ => false
  end.

Definition posts_in_flight_B {eng} (w : worldB eng) : list (callB eng) :=
  filter (λ c, post_in_flight_B c = true) (issued w).

(** The fetch came back with a 2xx response whose body parses. *)
Definition succeeded (o : settled) : Prop :=
  ∃ r data, o = Fulfilled r ∧ ok r = true ∧ json_body r = Normal data.

(** The fetch was rejected, or came back with a response that is not ok. *)
Definition failed (o : settled) : Prop :=
  (∃ e, o = Rejected e) ∨ (∃ r, o = Fulfilled r ∧ ok r = false).

(** Variant A: nothing of a submission is left: no timer, no POST or
    re-fetch in flight, no re-fetch issued among the calls of id [n] and
    later, and the form is enabled. *)
Definition idle (n : nat) (w : worldA) : Prop :=
  timers w = []
  ∧ holders w = []
  ∧ refetch_times n w = []
  ∧ VariantA.isLoading (ui w) = false
  ∧ (n ≤ length (issued w))%nat.

End Traffic.

(* ================================================================== *)
(** * More examples *)
(* ================================================================== *)

Module Scenes.
Import Js Http Loop.

(** Variant B after the user typed "status report". *)
Definition typed_B : World (VariantB.app v8) :=
  default (boot _ 0)
    (run (boot (VariantB.app v8) 0)
       [VariantB.user v8 (VariantB.Change Examples.status_report)]).

(** Variant A five milliseconds after the mount, the refresh button just
    clicked: the log feed was fetched at times 0 (call 0) and 5 (call 2). *)
Definition refreshed_A : World VariantA.app :=
  default (boot _ 0)
    (run (boot VariantA.app 0) [Tick 5; VariantA.user VariantA.Refresh]).

Definition first_fetch : call VariantA.app :=
  Build_call VariantA.app 0 (VariantA.logs_request 0) (VariantA.AwaitLogs false) None.
Definition second_fetch : call VariantA.app :=
  Build_call VariantA.app 5 (VariantA.logs_request 5) (VariantA.AwaitLogs false) None.

(** The body [{"error": {"code": 7}}]. *)
Definition object_error : json :=
  JObj [(lit "error", JObj [(lit "code", JNum {| num_zero := false; num_text := lit "7" |})])].

(** The body [{"error": {"toString": 1}}]. *)
Definition unprintable_error : json :=
  JObj [(lit "error",
         JObj [(lit "toString", JNum {| num_zero := false; num_text := lit "1" |})])].

(** What the user does after the probes of Variant A have settled: types,
    submits, and the POST fails. *)
Definition a_failed_submission : list (event VariantA.app) :=
  [VariantA.user (VariantA.Change Examples.status_report);
   VariantA.user VariantA.Submit;
   Settle 4 (Fulfilled Examples.unavailable503)].

(** The same in Variant B. *)
Definition a_failed_submission_B : list (event (VariantB.app v8)) :=
  [VariantB.user v8 (VariantB.Change Examples.status_report);
   VariantB.user v8 VariantB.Submit;
   Settle 1 (Fulfilled Examples.unavailable503)].

End Scenes.


(* ================================================================== *)
(** * Proof automation *)
(* ================================================================== *)

Import Js Http Loop Observe.

(** Unfolds one step of Variant A into the worlds it can lead to. *)
Ltac stepA H :=
  match type of H with
  | step ?w ?ev = Some ?w' =>
      destruct w as [st tnow calls tms]; destruct ev as [d|id o|i|u];
      unfold step in H; cbn [ui now issued timers resume fire handle VariantA.app] in H
  end.

(** Unfolds one step of Variant B into the worlds it can lead to. *)
Ltac stepB H :=
  match type of H with
  | step ?w ?ev = Some ?w' =>
      destruct w as [st tnow calls tms]; destruct ev as [d|id o|i|u];
      unfold step in H; cbn [ui now issued timers resume fire handle VariantB.app] in H
  end.

(** Filters a list that ends in a freshly issued call. *)
Ltac filter_new_call :=
  rewrite filter_app, filter_cons, filter_nil; cbn; case_decide; try done;
  rewrite ?app_nil_r, ?length_app; cbn.

(* ================================================================== *)
(** * Properties *)
(* ================================================================== *)

(** ** trim *)
Section trim_facts.

Lemma trimStart_nil s : trimStart s = [] ↔ whitespace_only s = true.
Proof.
  induction s as [|c r IH]; simpl; [done|].
  destruct (strippable c); simpl; [exact IH|]. split; discriminate.
Qed.

Lemma trimStart_head s c r : trimStart s = c :: r → strippable c = false.
Proof.
  induction s as [|a s IH]; simpl; [discriminate|].
  destruct (strippable a) eqn:E; [exact IH|]. intros [= <- _]. exact E.
Qed.

Lemma whitespace_only_reverse s : whitespace_only (reverse s) = whitespace_only s.
Proof.
  unfold whitespace_only. induction s as [|c r IH]; [done|].
  rewrite reverse_cons, forallb_app, IH. simpl.
  rewrite andb_true_r. apply andb_comm.
Qed.

Lemma trim_empty s : is_empty (trim s) = whitespace_only s.
Proof.
  unfold trim, trimEnd.
  destruct (whitespace_only s) eqn:E.
  - apply trimStart_nil in E. rewrite E. reflexivity.
  - destruct (trimStart s) as [|c r] eqn:Hs.
    + apply trimStart_nil in Hs. congruence.
    + destruct (reverse (trimStart (reverse (c :: r)))) as [|x y] eqn:Hr; [|done].
      exfalso.
      apply (f_equal reverse) in Hr. rewrite reverse_involutive in Hr.
      rewrite reverse_nil in Hr. apply trimStart_nil in Hr.
      rewrite whitespace_only_reverse in Hr. simpl in Hr.
      apply trimStart_head in Hs. rewrite Hs in Hr. discriminate.
Qed.

End trim_facts.

Lemma handleSubmit_B_resume_ok eng st r data :
  ok r = true → json_body r = Normal data →
  VariantB.handleSubmit_resume eng (Fulfilled r) st
  = (VariantB.setIsLoading false (VariantB.setPrompt [] (VariantB.setLastResponse data st)), []).
Proof.
  intros Hok Hbody. unfold VariantB.handleSubmit_resume, VariantB.handleSubmit_try.
  cbn. rewrite Hok. cbn. rewrite Hbody. reflexivity.
Qed.

(** C1.  Variant B: when the POST of a submission settles with a response
    whose status is 2xx and whose body parses as JSON, the loop takes the
    step, after which [lastResponse] is exactly the parsed value and the
    prompt is the empty string; when the value is a string-to-string
    mapping, [ResponseViewer] prints it. *)
Theorem C1_success_shows_mapping_and_clears_prompt
    (eng : Engine) (w : World (VariantB.app eng)) (id : nat)
    (c : call (VariantB.app eng)) (r : Response) (data : json) :
  issued w !! id = Some c →
  call_k c = VariantB.AwaitPost →
  call_outcome c = None →
  ok r = true →
  json_body r = Normal data →
  ∃ w', step w (Settle id (Fulfilled r)) = Some w'
    ∧ VariantB.lastResponse (ui w') = data
    ∧ VariantB.prompt (ui w') = []
    ∧ (∀ m, data = VariantB.AiOutputs m →
         VariantB.ResponseViewer (VariantB.lastResponse (ui w')) = Some (VariantB.AiOutputs m)).
Proof.
  intros Hid Hk Hout Hok Hbody.
  unfold step. rewrite Hid, Hout. cbn. rewrite Hk. cbn.
  rewrite (handleSubmit_B_resume_ok eng _ r _ Hok Hbody).
  eexists. split; [reflexivity|]. cbn. repeat split. by intros m ->.
Qed.

(** C1 at "status report" answered with
    [200 {"agent1": "done", "agent2": "pending"}]. *)
Lemma C1_witness :
  ∃ w', step Examples.submitted_B (Settle 1 (Fulfilled Examples.ok_agents)) = Some w'
    ∧ VariantB.lastResponse (ui w') = VariantB.AiOutputs Examples.agents
    ∧ VariantB.prompt (ui w') = []
    ∧ VariantB.ResponseViewer (VariantB.lastResponse (ui w'))
      = Some (VariantB.AiOutputs Examples.agents).
Proof.
  destruct (C1_success_shows_mapping_and_clears_prompt v8 Examples.submitted_B 1
              Examples.post_B Examples.ok_agents (VariantB.AiOutputs Examples.agents))
    as (w' & Hstep & Hresp & Hprompt & Hview); try reflexivity.
  exists w'. repeat split; try assumption. by apply Hview.
Defined.

(** ** Submitting a blank prompt *)

Lemma handleSubmit_A_blank st :
  whitespace_only (VariantA.prompt st) = true →
  VariantA.handleSubmit st = (st, [PreventDefault]).
Proof.
  intros H. unfold VariantA.handleSubmit. by rewrite trim_empty, H.
Qed.

Lemma handleSubmit_B_blank st :
  whitespace_only (VariantB.prompt st) = true →
  VariantB.handleSubmit st = (st, [PreventDefault]).
Proof.
  intros H. unfold VariantB.handleSubmit. by rewrite trim_empty, H.
Qed.

Lemma with_ui_same {app} (w : World app) : with_ui app (ui w) w = w.
Proof. by destruct w. Qed.

(** C3.  In both variants, when the prompt is empty or made only of
    whitespace, [handleSubmit] returns the state it was given and issues no
    fetch (its only effect is [preventDefault]); accordingly a submit event
    leaves the whole world as it was: component state, calls issued,
    timers. *)
Theorem C3_blank_prompt_is_ignored
    (eng : Engine) (p : jstring)
    (a : World VariantA.app) (b : World (VariantB.app eng)) :
  whitespace_only p = true →
  VariantA.prompt (ui a) = p →
  VariantB.prompt (ui b) = p →
  VariantA.handleSubmit (ui a) = (ui a, [PreventDefault])
  ∧ VariantB.handleSubmit (ui b) = (ui b, [PreventDefault])
  ∧ step a (VariantA.user VariantA.Submit)
    = (if VariantA.disabled (ui a) then None else Some a)
  ∧ step b (VariantB.user eng VariantB.Submit)
    = (if VariantB.disabled (ui b) then None else Some b).
Proof.
  intros Hp Ha Hb.
  assert (HA := handleSubmit_A_blank (ui a)). rewrite Ha in HA. specialize (HA Hp).
  assert (HB := handleSubmit_B_blank (ui b)). rewrite Hb in HB. specialize (HB Hp).
  repeat split; try assumption.
  - unfold step. cbn. destruct (VariantA.disabled (ui a)); [done|].
    rewrite HA. cbn. by rewrite with_ui_same.
  - unfold step. cbn. destruct (VariantB.disabled (ui b)); [done|].
    rewrite HB. cbn. by rewrite with_ui_same.
Qed.

(** ** A failed submission in Variant B *)

Lemma handleSubmit_B_resume_throw eng o st err :
  VariantB.handleSubmit_try eng o = Throw err →
  VariantB.handleSubmit_resume eng o st
  = (VariantB.setIsLoading false
       (VariantB.setError (Some (message_or err (lit "Failed to submit prompt"))) st), []).
Proof. intros H. unfold VariantB.handleSubmit_resume. by rewrite H. Qed.

Lemma handleSubmit_B_try_failed eng r :
  ok r = false →
  VariantB.handleSubmit_try eng (Fulfilled r) = VariantB.failed_response eng r.
Proof. intros H. unfold VariantB.handleSubmit_try. cbn. by rewrite H. Qed.

Lemma get_error_not_null eng v :
  v ≠ JNull → get_error eng v = Normal (Wording.error_field v).
Proof. by destruct v. Qed.

(** The [throw] of line 69 when the operand of [new Error] is a string. *)
Lemma failed_response_string eng r v s :
  catch_with (json_body r) (JObj [(lit "error", JStr (VariantB.status_message r))]) = v →
  v ≠ JNull →
  VariantB.or_else (Wording.error_field v) (JStr (VariantB.status_message r)) = JStr s →
  VariantB.failed_response eng r = Throw (ErrorObj s).
Proof.
  intros Hv Hn Hs. unfold VariantB.failed_response. rewrite Hv.
  rewrite (get_error_not_null eng v Hn). cbn. rewrite Hs. reflexivity.
Qed.

Lemma status_message_nonempty r : is_empty (VariantB.status_message r) = false.
Proof. reflexivity. Qed.

Lemma member_singleton k v : member k [(k, v)] = Some v.
Proof. cbn. by rewrite decide_True. Qed.

(** C6 as worded fails.  For the body [{"error": ""}] with status 500 the
    body parses as JSON and has an [error] field, yet the message shown is
    "Request failed with status 500", not the field. *)
Lemma C6_counterexample :
  ¬ (∀ (eng : Engine) (st : VariantB.Home) (r : Response),
       ok r = false →
       ∃ m, VariantB.error (VariantB.handleSubmit_resume eng (Fulfilled r) st).1 = Some m
            ∧ Wording.spec_error_message r m).
Proof.
  intros H.
  destruct (H v8 VariantB.initial_state (Examples.http500 Examples.empty_error) eq_refl)
    as (m & Hm & Hspec).
  vm_compute in Hm. vm_compute in Hspec. congruence.
Qed.

(** C6, amended.  Variant B, for a response that is not ok: when the body
    parses as JSON with an [error] field that is a non-empty string, the
    message is that string; when the body does not parse as JSON, or parses
    to a value other than [null] whose [error] field is absent or falsy,
    the message is "Request failed with status N". *)
Theorem C6_error_field_or_generic_message
    (eng : Engine) (st : VariantB.Home) (r : Response) :
  ok r = false →
  let st' := (VariantB.handleSubmit_resume eng (Fulfilled r) st).1 in
  (∀ v s, json_body r = Normal v → Wording.error_field v = Some (JStr s) → s ≠ [] →
     VariantB.error st' = Some s)
  ∧ (∀ e, json_body r = Throw e →
     VariantB.error st' = Some (VariantB.status_message r))
  ∧ (∀ v, json_body r = Normal v → v ≠ JNull →
     (∀ x, Wording.error_field v = Some x → truthy x = false) →
     VariantB.error st' = Some (VariantB.status_message r)).
Proof.
  intros Hok st'. subst st'. repeat split.
  - intros v s Hbody Hf Hs.
    assert (Hn : v ≠ JNull) by (intros ->; discriminate).
    rewrite (handleSubmit_B_resume_throw eng _ st (ErrorObj s)); [done|].
    rewrite handleSubmit_B_try_failed by done.
    apply (failed_response_string eng r v s); [by rewrite Hbody | done |].
    rewrite Hf. cbn. by destruct s.
  - intros e Hbody.
    rewrite (handleSubmit_B_resume_throw eng _ st (ErrorObj (VariantB.status_message r))); [done|].
    rewrite handleSubmit_B_try_failed by done.
    apply (failed_response_string eng r
             (JObj [(lit "error", JStr (VariantB.status_message r))]));
      [by rewrite Hbody | done |].
    unfold Wording.error_field. rewrite member_singleton.
    unfold VariantB.or_else, truthy. by rewrite status_message_nonempty.
  - intros v Hbody Hn Hf.
    rewrite (handleSubmit_B_resume_throw eng _ st (ErrorObj (VariantB.status_message r))); [done|].
    rewrite handleSubmit_B_try_failed by done.
    apply (failed_response_string eng r v); [by rewrite Hbody | done |].
    destruct (Wording.error_field v) as [x|] eqn:E; [|done].
    cbn. by rewrite (Hf x eq_refl).
Qed.

(** C4.  Variant B at the response [500 {"error": []}]: the empty array
    is truthy, so it is the operand of [new Error], whose message is the
    empty string; the form is re-enabled, but the error state is the empty
    string and the page shows no message. *)
Theorem C4_array_error_field_shows_no_message
    (eng : Engine) (st : VariantB.Home) :
  let st' := (VariantB.handleSubmit_resume eng
                (Fulfilled (Examples.http500 Examples.array_error)) st).1 in
  VariantB.error st' = Some []
  ∧ VariantB.error_line st' = None
  ∧ VariantB.isLoading st' = false.
Proof. cbv zeta. repeat split. Qed.

(** ** A failed submission, in general *)

(** Variant A: a response that is not ok, or a network failure, puts a
    message on the page and re-enables the form. *)
Lemma submit_failure_A st o :
  (∃ r, o = Fulfilled r ∧ ok r = false) ∨ (∃ e, o = Rejected e ∧ network_error e) →
  let st' := (VariantA.handleSubmit_resume o st).1 in
  (∃ m, VariantA.error_line st' = Some m)
  ∧ VariantA.isLoading st' = false
  ∧ (VariantA.handleSubmit_resume o st).2 = [].
Proof.
  unfold VariantA.handleSubmit_resume, VariantA.handleSubmit_try, VariantA.error_line.
  intros [(r & -> & Hok) | (e & -> & c & m & ->)]; cbn.
  - rewrite Hok. cbn. eauto.
  - eauto.
Qed.

(** Variant B: what line 69 throws is always caught with some message. *)
Lemma failed_response_throws eng r :
  ∃ err, VariantB.failed_response eng r = Throw err.
Proof.
  unfold VariantB.failed_response.
  destruct (get_error eng _) as [field|e]; cbn; [|by eexists].
  destruct (new_Error eng _) as [err|e]; cbn; by eexists.
Qed.

(** Variant B: a response that is not ok, or a rejected fetch, sets the
    error state and re-enables the form; the message may be empty. *)
Lemma submit_failure_B eng st o :
  (∃ r, o = Fulfilled r ∧ ok r = false) ∨ (∃ e, o = Rejected e) →
  let st' := (VariantB.handleSubmit_resume eng o st).1 in
  (∃ m, VariantB.error st' = Some m) ∧ VariantB.isLoading st' = false.
Proof.
  intros [(r & -> & Hok) | (e & ->)]; cbn.
  - destruct (failed_response_throws eng r) as [err Herr].
    rewrite (handleSubmit_B_resume_throw eng _ st err); [cbn; eauto|].
    by rewrite handleSubmit_B_try_failed.
  - rewrite (handleSubmit_B_resume_throw eng _ st e); [cbn; eauto | done].
Qed.

(** ** The log feed fetcher *)

Lemma fetchLogs_resume_ok st r data :
  ok r = true → json_body r = Normal data →
  VariantA.fetchLogs_resume (Fulfilled r) st = VariantA.setLogs data st.
Proof.
  intros Hok Hbody. unfold VariantA.fetchLogs_resume, VariantA.fetchLogs_try.
  cbn. rewrite Hok. cbn. by rewrite Hbody.
Qed.

Lemma fetchLogs_resume_not_ok st r :
  ok r = false →
  VariantA.fetchLogs_resume (Fulfilled r) st
  = VariantA.setError (Some (lit "Failed to fetch logs")) st.
Proof.
  intros Hok. unfold VariantA.fetchLogs_resume, VariantA.fetchLogs_try.
  cbn. by rewrite Hok.
Qed.

Lemma fetchLogs_resume_rejected st e :
  VariantA.fetchLogs_resume (Rejected e) st
  = VariantA.setError (Some (message_or e (lit "An unknown error occurred"))) st.
Proof. reflexivity. Qed.

Lemma settle_logs_fields t b o st :
  let st' := (VariantA.on_settle t (VariantA.AwaitLogs b) o st).1 in
  VariantA.logs st' = VariantA.logs (VariantA.fetchLogs_resume o st)
  ∧ VariantA.error st' = VariantA.error (VariantA.fetchLogs_resume o st).
Proof. cbn. by destruct b. Qed.

Lemma fetchLogs_resume_unparsable st r e :
  ok r = true → json_body r = Throw e →
  VariantA.fetchLogs_resume (Fulfilled r) st
  = VariantA.setError (Some (message_or e (lit "An unknown error occurred"))) st.
Proof.
  intros Hok Hbody. unfold VariantA.fetchLogs_resume, VariantA.fetchLogs_try.
  cbn. rewrite Hok. cbn. by rewrite Hbody.
Qed.

(** C7 as worded fails.  A 200 whose body does not parse
    ([Examples.truncated200]) replaces nothing: [response.json()] rejects,
    the [catch] of line 59 shows the parser's message and the list stays
    what it was, empty on the fresh page and the earlier entry on the page
    that listed it.  So what is listed after a 2xx response is not fixed by
    the response. *)
Lemma C7_counterexample : ¬ Wording.replaces_on_every_2xx.
Proof.
  intros [fetched H].
  pose proof (H 50 false VariantA.initial_state Examples.truncated200 eq_refl) as H1.
  pose proof (H 50 false (ui Examples.listed_A) Examples.truncated200 eq_refl) as H2.
  vm_compute in H1. vm_compute in H2. congruence.
Qed.

(** C7, amended.  Variant A, for every call of [fetchLogs] (with or without
    the [finally] of line 106) and whatever the state was: a 2xx response
    whose body parses makes [logs] the parsed value, with nothing of the
    prior list; a 2xx response whose body does not parse shows the
    parser's message and leaves [logs] as it was; a response that is not
    ok shows "Failed to fetch logs" and leaves [logs] as it was; a network
    failure shows its message and leaves [logs] as it was. *)
Theorem C7_fetchLogs_replaces_or_reports
    (t : N) (and_finally : bool) (st : VariantA.Home) :
  (∀ r data, ok r = true → json_body r = Normal data →
     VariantA.logs
       (VariantA.on_settle t (VariantA.AwaitLogs and_finally) (Fulfilled r) st).1
     = data)
  ∧ (∀ r e, ok r = true → json_body r = Throw e → syntax_error e →
       let st' := (VariantA.on_settle t (VariantA.AwaitLogs and_finally) (Fulfilled r) st).1 in
       VariantA.error_line st' = Some (message_or e (lit "An unknown error occurred"))
       ∧ VariantA.logs st' = VariantA.logs st)
  ∧ (∀ r, ok r = false →
       let st' := (VariantA.on_settle t (VariantA.AwaitLogs and_finally) (Fulfilled r) st).1 in
       VariantA.error_line st' = Some (lit "Failed to fetch logs")
       ∧ VariantA.logs st' = VariantA.logs st)
  ∧ (∀ e, network_error e →
       let st' := (VariantA.on_settle t (VariantA.AwaitLogs and_finally) (Rejected e) st).1 in
       VariantA.error_line st' = Some (message_or e (lit "An unknown error occurred"))
       ∧ VariantA.logs st' = VariantA.logs st).
Proof.
  split; [|split; [|split]].
  - intros r data Hok Hbody.
    destruct (settle_logs_fields t and_finally (Fulfilled r) st) as [-> _].
    by rewrite (fetchLogs_resume_ok st r _ Hok Hbody).
  - intros r e Hok Hbody (c & m & ->).
    destruct (settle_logs_fields t and_finally (Fulfilled r) st) as [Hlogs Herr].
    cbn zeta. unfold VariantA.error_line. rewrite Hlogs, Herr.
    by rewrite (fetchLogs_resume_unparsable st r _ Hok Hbody).
  - intros r Hok.
    destruct (settle_logs_fields t and_finally (Fulfilled r) st) as [Hlogs Herr].
    cbn zeta. unfold VariantA.error_line. rewrite Hlogs, Herr.
    by rewrite (fetchLogs_resume_not_ok st r Hok).
  - intros e (c & m & ->).
    destruct (settle_logs_fields t and_finally (Rejected (ErrorObj (c :: m))) st)
      as [Hlogs Herr].
    cbn zeta. unfold VariantA.error_line. rewrite Hlogs, Herr.
    by rewrite fetchLogs_resume_rejected.
Qed.

(** ** The expansion toggle *)

(** C9.  [LogItem]: clicking the toggle twice gives back the state and the
    rendering it started from, one click does change the rendering, a click
    has no effect besides the state update, and in the loop the two clicks
    lead back to the same world with no call issued. *)
Theorem C9_toggle_is_an_involution
    (toLocaleString : jstring → jstring)
    (log : LogItem.Log) (w : World LogItem.app) :
  (LogItem.onClick (LogItem.onClick (ui w)).1).1 = ui w
  ∧ LogItem.render toLocaleString log (LogItem.onClick (LogItem.onClick (ui w)).1).1
    = LogItem.render toLocaleString log (ui w)
  ∧ LogItem.render toLocaleString log (LogItem.onClick (ui w)).1
    ≠ LogItem.render toLocaleString log (ui w)
  ∧ (LogItem.onClick (ui w)).2 = []
  ∧ ∃ w1, step w (LogItem.user LogItem.Click) = Some w1
      ∧ issued w1 = issued w
      ∧ step w1 (LogItem.user LogItem.Click) = Some w.
Proof.
  destruct w as [s t iss tm]. cbn.
  rewrite negb_involutive. repeat split.
  - by destruct s.
  - eexists. split; [reflexivity|]. split; [reflexivity|].
    cbn. by rewrite negb_involutive.
Qed.

(** ** The event loop *)

Section loop_facts.
Context {app : App}.
Implicit Types (w : World app) (ev : event app).

Lemma run_invariant (P : World app → Prop) w evs w' :
  (∀ w1 ev w2, P w1 → step w1 ev = Some w2 → P w2) →
  P w → run w evs = Some w' → P w'.
Proof.
  intros Hstep. revert w. induction evs as [|e evs IH]; intros w HP; cbn.
  - by intros [= <-].
  - destruct (step w e) as [w1|] eqn:E; [|done]. eauto.
Qed.

Lemma run_invariant_where (Q : event app → Prop) (P : World app → Prop) w evs w' :
  (∀ w1 ev w2, Q ev → P w1 → step w1 ev = Some w2 → P w2) →
  Forall Q evs → P w → run w evs = Some w' → P w'.
Proof.
  intros Hstep HQ. revert w. induction HQ as [|e evs He HQ IH]; intros w HP; cbn.
  - by intros [= <-].
  - destruct (step w e) as [w1|] eqn:E; [|done]. eauto.
Qed.

Lemma reachable_invariant (P : World app → Prop) :
  (∀ t0, P (boot app t0)) →
  (∀ w1 ev w2, P w1 → step w1 ev = Some w2 → P w2) →
  ∀ w, reachable w → P w.
Proof.
  intros Hboot Hstep w (t0 & evs & Hrun).
  by apply (run_invariant P (boot app t0) evs w).
Qed.

(** A run that can be taken ends in the world that [default] picks from
    it; the test is one a machine evaluates. *)
Lemma run_default w d evs :
  (if run w evs is Some _ then true else false) = true →
  run w evs = Some (default d (run w evs)).
Proof. by destruct (run w evs). Qed.

End loop_facts.

(** ** Lists of calls *)

Section call_lists.
Context {A : Type} (P : A → Prop) `{∀ x, Decision (P x)}.

Lemma filter_split_at (l : list A) i x :
  l !! i = Some x →
  filter P l = filter P (take i l) ++ (if decide (P x) then [x] else [])
               ++ filter P (drop (S i) l).
Proof.
  intros Hi. rewrite <- (take_drop_middle l i x Hi) at 1.
  rewrite filter_app, filter_cons. by destruct (decide (P x)).
Qed.

Lemma filter_insert_at (l : list A) i x y :
  l !! i = Some x →
  filter P (<[i:=y]> l) = filter P (take i l) ++ (if decide (P y) then [y] else [])
                          ++ filter P (drop (S i) l).
Proof.
  intros Hi. rewrite insert_take_drop by (by eapply lookup_lt_Some).
  rewrite filter_app, filter_cons. by destruct (decide (P y)).
Qed.

Lemma filter_snoc (l : list A) x :
  filter P (l ++ [x]) = filter P l ++ (if decide (P x) then [x] else []).
Proof. rewrite filter_app, filter_cons, filter_nil. by destruct (decide (P x)). Qed.

End call_lists.

(** ** Steps of Variant A *)

Lemma holds_lock_settle t o (c : callA) :
  holds_lock (settle_call _ t o c) = false.
Proof. reflexivity. Qed.

Lemma is_refetch_settle t o (c : callA) :
  is_refetch (settle_call _ t o c) = is_refetch c.
Proof. reflexivity. Qed.

Lemma holders_after_settle (calls : list callA) id c t o :
  calls !! id = Some c →
  (length (filter (λ c, holds_lock c = true) (<[id := settle_call _ t o c]> calls))
   + (if holds_lock c then 1 else 0)
   = length (filter (λ c, holds_lock c = true) calls))%nat.
Proof.
  intros Hid.
  rewrite (filter_insert_at _ calls id c _ Hid), (filter_split_at _ calls id c Hid).
  cbn beta. rewrite holds_lock_settle, !length_app.
  destruct (holds_lock c); repeat case_decide; try done; cbn; lia.
Qed.

Lemma fetchLogs_resume_frame o st :
  VariantA.prompt (VariantA.fetchLogs_resume o st) = VariantA.prompt st
  ∧ VariantA.isLoading (VariantA.fetchLogs_resume o st) = VariantA.isLoading st
  ∧ VariantA.statuses (VariantA.fetchLogs_resume o st) = VariantA.statuses st.
Proof.
  unfold VariantA.fetchLogs_resume. by destruct (VariantA.fetchLogs_try o).
Qed.

Lemma handleSubmit_resume_cases o st :
  (VariantA.handleSubmit_try o = Normal ()
   ∧ VariantA.handleSubmit_resume o st = (st, [SetTimeout VariantA.Refetch 8000]))
  ∨ (∃ err, VariantA.handleSubmit_try o = Throw err
     ∧ VariantA.handleSubmit_resume o st
       = (VariantA.setIsLoading false
            (VariantA.setError
               (Some (message_or err (lit "Failed to submit prompt"))) st), [])).
Proof.
  unfold VariantA.handleSubmit_resume.
  destruct (VariantA.handleSubmit_try o) as [[]|err]; eauto.
Qed.

Lemma handleSubmit_A_cases st :
  (whitespace_only (VariantA.prompt st) = true
   ∧ VariantA.handleSubmit st = (st, [PreventDefault]))
  ∨ (whitespace_only (VariantA.prompt st) = false
     ∧ VariantA.handleSubmit st
       = (VariantA.setError None (VariantA.setIsLoading true st),
          [PreventDefault; Fetch (VariantA.post_request (VariantA.prompt st)) VariantA.AwaitPost])).
Proof.
  unfold VariantA.handleSubmit. rewrite trim_empty.
  destruct (whitespace_only (VariantA.prompt st)); eauto.
Qed.

Lemma busy_boot t0 : tokens (boot VariantA.app t0) = 0%nat.
Proof. reflexivity. Qed.

Lemma busy_step (w w' : worldA) ev :
  tokens w = (if VariantA.isLoading (ui w) then 1 else 0)%nat →
  step w ev = Some w' →
  tokens w' = (if VariantA.isLoading (ui w') then 1 else 0)%nat.
Proof.
  intros Hinv Hstep. stepA Hstep; unfold tokens, holders in *; cbn [ui issued timers] in *.
  - injection Hstep as <-. exact Hinv.
  - destruct (calls !! id) as [c|] eqn:Hid; [|done].
    destruct (call_outcome c) eqn:Hout; [done|].
    pose proof (holders_after_settle calls id c tnow o Hid) as Hlen.
    assert (Hh : holds_lock c
                 = match call_k c with
                   | VariantA.AwaitPost | VariantA.AwaitLogs true => true
                   | _ => false
                   end)
      by (unfold holds_lock; by rewrite Hout).
    rewrite Hh in Hlen; clear Hh.
    destruct (call_k c) as [b|name rest|] eqn:Hk; cbn in Hstep.
    + injection Hstep as <-. cbn [ui issued timers].
      destruct (fetchLogs_resume_frame o st) as (_ & Hl & _).
      destruct b; cbn in *; [|rewrite Hl]; destruct (VariantA.isLoading st); lia.
    + injection Hstep as <-.
      destruct rest as [|[name' url'] rest']; cbn in *; [lia|].
      filter_new_call. lia.
    + destruct (handleSubmit_resume_cases o st) as [[_ E]|(err & _ & E)];
        rewrite E in Hstep; injection Hstep as <-; cbn in *; rewrite ?length_app; cbn;
        destruct (VariantA.isLoading st); lia.
  - destruct (tms !! i) as [[due cb]|] eqn:Hi; [|done].
    destruct (due <=? tnow); [|done]. destruct cb. cbn in Hstep.
    injection Hstep as <-. cbn in *. filter_new_call.
    rewrite length_delete by eauto.
    apply lookup_lt_Some in Hi. lia.
  - destruct u as [|v|]; cbn in Hstep.
    + unfold VariantA.disabled in Hstep. destruct (VariantA.isLoading st) eqn:Hl; [done|].
      destruct (handleSubmit_A_cases st) as [[_ E]|[_ E]]; rewrite E in Hstep;
        injection Hstep as <-; cbn in *; rewrite ?Hl; [lia|].
      filter_new_call. lia.
    + unfold VariantA.disabled in Hstep. destruct (VariantA.isLoading st) eqn:Hl; [done|].
      injection Hstep as <-. cbn in *. rewrite Hl. lia.
    + injection Hstep as <-. cbn in *. filter_new_call. lia.
Qed.

Lemma busy_invariant (w : worldA) :
  reachable w → tokens w = (if VariantA.isLoading (ui w) then 1 else 0)%nat.
Proof.
  apply (reachable_invariant
           (λ w, tokens w = (if VariantA.isLoading (ui w) then 1 else 0)%nat)).
  - intros t0. apply busy_boot.
  - intros w1 ev w2. apply busy_step.
Qed.

(** ** The submission flow of Variant A *)

Lemma holders_settle_other (calls : list callA) id c t o :
  calls !! id = Some c → holds_lock c = false →
  filter (λ c, holds_lock c = true) (<[id := settle_call _ t o c]> calls)
  = filter (λ c, holds_lock c = true) calls.
Proof.
  intros Hid Hc.
  rewrite (filter_insert_at _ calls id c _ Hid), (filter_split_at _ calls id c Hid).
  cbn beta. rewrite holds_lock_settle, Hc. by repeat case_decide.
Qed.

Lemma holders_settle_holder (calls : list callA) id c t o hs :
  calls !! id = Some c → holds_lock c = true →
  filter (λ c, holds_lock c = true) calls = hs →
  (length hs ≤ 1)%nat →
  hs = [c]
  ∧ filter (λ c, holds_lock c = true) (<[id := settle_call _ t o c]> calls) = [].
Proof.
  intros Hid Hc <- Hlen.
  rewrite (filter_insert_at _ calls id c _ Hid).
  rewrite (filter_split_at _ calls id c Hid) in Hlen |- *.
  cbn beta in *. rewrite holds_lock_settle, Hc in *.
  repeat case_decide; try done.
  rewrite !length_app in Hlen. cbn in Hlen.
  destruct (filter _ (take id calls)); [|cbn in Hlen; lia].
  destruct (filter _ (drop (S id) calls)); [|cbn in Hlen; lia].
  done.
Qed.

Lemma times_settle (f : callA → bool) n (calls : list callA) id c t o :
  (∀ t o c, f (settle_call _ t o c) = f c) →
  calls !! id = Some c →
  call_time <$> filter (λ c, f c = true) (drop n (<[id := settle_call _ t o c]> calls))
  = call_time <$> filter (λ c, f c = true) (drop n calls).
Proof.
  intros Hf Hid. destruct (decide (id < n)%nat) as [Hlt|Hge].
  - by rewrite drop_insert_lt.
  - rewrite drop_insert_ge by lia.
    assert (Hd : drop n calls !! (id - n)%nat = Some c).
    { rewrite lookup_drop. rewrite <- Hid. f_equal. lia. }
    rewrite (filter_insert_at _ _ _ c _ Hd), (filter_split_at _ (drop n calls) _ c Hd).
    cbn beta. rewrite Hf, !fmap_app.
    by destruct (f c); repeat case_decide.
Qed.

Lemma times_new (f : callA → bool) n (calls : list callA) (c : callA) :
  (n ≤ length calls)%nat →
  call_time <$> filter (λ c, f c = true) (drop n (calls ++ [c]))
  = (call_time <$> filter (λ c, f c = true) (drop n calls))
    ++ (if f c then [call_time c] else []).
Proof.
  intros Hn. rewrite drop_app_le by done. rewrite filter_snoc, fmap_app.
  by destruct (f c); case_decide.
Qed.

Lemma refetch_times_settle n (calls : list callA) id c t o :
  calls !! id = Some c →
  call_time <$> filter (λ c, is_refetch c = true) (drop n (<[id := settle_call _ t o c]> calls))
  = call_time <$> filter (λ c, is_refetch c = true) (drop n calls).
Proof. apply times_settle. intros. apply is_refetch_settle. Qed.

Lemma refetch_times_new n (calls : list callA) (c : callA) :
  (n ≤ length calls)%nat →
  call_time <$> filter (λ c, is_refetch c = true) (drop n (calls ++ [c]))
  = (call_time <$> filter (λ c, is_refetch c = true) (drop n calls))
    ++ (if is_refetch c then [call_time c] else []).
Proof. apply times_new. Qed.

(** Only the refresh button fetches the log feed outside the submission
    flow. *)
Lemma plain_step n (w w' : worldA) ev :
  (n ≤ length (issued w))%nat →
  not_refresh ev →
  step w ev = Some w' →
  plain_fetch_times n w' = plain_fetch_times n w
  ∧ (n ≤ length (issued w'))%nat.
Proof.
  intros Hn Hnr Hstep.
  assert (Hf : ∀ t o (c : callA), is_plain_fetch (settle_call _ t o c) = is_plain_fetch c)
    by done.
  stepA Hstep; unfold plain_fetch_times; cbn [ui now issued timers] in *.
  - by injection Hstep as <-.
  - destruct (calls !! id) as [c|] eqn:Hid; [|done].
    destruct (call_outcome c) eqn:Hout; [done|].
    destruct (call_k c) as [b|name rest|] eqn:Hk; cbn in Hstep.
    + injection Hstep as <-. cbn.
      by rewrite (times_settle _ n calls id c tnow o Hf Hid), length_insert.
    + injection Hstep as <-. destruct rest as [|[name' url'] rest']; cbn.
      * by rewrite (times_settle _ n calls id c tnow o Hf Hid), length_insert.
      * rewrite times_new by (by rewrite length_insert). cbn.
        rewrite (times_settle _ n calls id c tnow o Hf Hid).
        rewrite app_nil_r, length_app, length_insert. split; [done|lia].
    + destruct (handleSubmit_resume_cases o st) as [[_ E]|(err & _ & E)];
        rewrite E in Hstep; injection Hstep as <-; cbn;
        by rewrite (times_settle _ n calls id c tnow o Hf Hid), length_insert.
  - destruct (tms !! i) as [[due cb]|] eqn:Hi; [|done].
    destruct (due <=? tnow); [|done]. destruct cb. cbn in Hstep.
    injection Hstep as <-. cbn. rewrite times_new by done. cbn.
    rewrite app_nil_r, length_app. split; [done|lia].
  - destruct u as [|v|]; cbn in Hstep.
    + destruct (VariantA.disabled st); [done|].
      destruct (handleSubmit_A_cases st) as [[_ E]|[_ E]]; rewrite E in Hstep;
        injection Hstep as <-; cbn; [done|].
      rewrite times_new by done. cbn.
      rewrite app_nil_r, length_app. split; [done|lia].
    + destruct (VariantA.disabled st); [done|]. by injection Hstep as <-.
    + by destruct Hnr.
Qed.

Lemma plain_run n (w w' : worldA) evs :
  (n ≤ length (issued w))%nat →
  Forall not_refresh evs →
  run w evs = Some w' →
  plain_fetch_times n w' = plain_fetch_times n w.
Proof.
  intros Hn Hnr Hrun.
  apply (run_invariant_where not_refresh
           (λ x, plain_fetch_times n x = plain_fetch_times n w
                 ∧ (n ≤ length (issued x))%nat) w evs w'); try done.
  intros w1 ev w2 Hev [Hp Hlen] Hs.
  destruct (plain_step n w1 w2 ev Hlen Hev Hs) as [Hp' Hlen']. by rewrite Hp'.
Qed.

Lemma step_classify n (w w' : worldA) ev :
  (n ≤ length (issued w))%nat →
  not_submit ev →
  step w ev = Some w' →
  same_flow n w w'
  ∨ (∃ i due, ev = Fire i
       ∧ timers w !! i = Some (due, VariantA.Refetch)
       ∧ due ≤ now w
       ∧ w' = Build_World VariantA.app (ui w) (now w)
                (issued w ++ [refetch_call (now w)]) (delete i (timers w)))
  ∨ (∃ id o c, ev = Settle id o
       ∧ issued w !! id = Some c
       ∧ holds_lock c = true
       ∧ (is_refetch c = true →
          w' = Build_World VariantA.app
                 (VariantA.setIsLoading false (VariantA.fetchLogs_resume o (ui w)))
                 (now w) (<[id := settle_call _ (now w) o c]> (issued w)) (timers w))).
Proof.
  intros Hn Hns Hstep. stepA Hstep; cbn [ui now issued timers] in *.
  - left. injection Hstep as <-. unfold same_flow, holders, refetch_times. cbn.
    repeat split; try done. lia.
  - destruct (calls !! id) as [c|] eqn:Hid; [|done].
    destruct (call_outcome c) eqn:Hout; [done|].
    destruct (holds_lock c) eqn:Hh.
    + right. right. exists id, o, c. repeat split; try done.
      intros Hr. unfold is_refetch in Hr.
      destruct (call_k c) as [[]| |] eqn:Hk; try done.
      cbn in Hstep. by injection Hstep as <-.
    + left. unfold holds_lock in Hh. rewrite Hout in Hh.
      destruct (call_k c) as [[]|name rest|] eqn:Hk; try done; cbn in Hstep.
      * injection Hstep as <-.
        destruct (fetchLogs_resume_frame o st) as (_ & Hl & _).
        unfold same_flow, holders, refetch_times. cbn.
        rewrite (holders_settle_other calls id c tnow o Hid)
          by (unfold holds_lock; by rewrite Hout, Hk).
        rewrite (refetch_times_settle n calls id c tnow o Hid).
        rewrite length_insert. repeat split; try done.
      * injection Hstep as <-.
        assert (Hc : holds_lock c = false) by (unfold holds_lock; by rewrite Hout, Hk).
        unfold same_flow, holders, refetch_times.
        destruct rest as [|[name' url'] rest']; cbn.
        -- rewrite (holders_settle_other calls id c tnow o Hid Hc).
           rewrite (refetch_times_settle n calls id c tnow o Hid).
           rewrite length_insert. repeat split; try done.
        -- rewrite refetch_times_new by (by rewrite length_insert).
           rewrite filter_snoc. cbn. case_decide; [done|].
           rewrite !app_nil_r.
           rewrite (holders_settle_other calls id c tnow o Hid Hc).
           rewrite (refetch_times_settle n calls id c tnow o Hid).
           rewrite length_app, length_insert. repeat split; try done. lia.
  - destruct (tms !! i) as [[due cb]|] eqn:Hi; [|done].
    destruct (due <=? tnow) eqn:Hdue; [|done]. destruct cb. cbn in Hstep.
    injection Hstep as <-. right. left. exists i, due.
    repeat split; try done. by apply N.leb_le.
  - destruct u as [|v|]; cbn in Hstep.
    + by destruct Hns.
    + unfold VariantA.disabled in Hstep. destruct (VariantA.isLoading st) eqn:Hl; [done|].
      injection Hstep as <-. left. unfold same_flow, holders, refetch_times. cbn.
      repeat split; try done.
    + injection Hstep as <-. left. unfold same_flow, holders, refetch_times. cbn.
      rewrite refetch_times_new by done.
      rewrite filter_snoc. cbn. case_decide; [done|].
      rewrite !app_nil_r, length_app. repeat split; try done. lia.
Qed.

Lemma flow_same n due (w w' : worldA) :
  flow n due w → same_flow n w w' → flow n due w'.
Proof.
  intros Hflow (Ht & Hh & Hr & Hl & Hnow & Hlen).
  destruct Hflow; [apply Waiting | eapply Refreshing | eapply Finished];
    rewrite ?Ht, ?Hh, ?Hr, ?Hl; try eassumption; try lia.
Qed.

Lemma holders_new (calls : list callA) (c : callA) :
  filter (λ c, holds_lock c = true) (calls ++ [c])
  = filter (λ c, holds_lock c = true) calls ++ (if holds_lock c then [c] else []).
Proof. rewrite filter_snoc. by destruct (holds_lock c); case_decide. Qed.

Lemma flow_step n due (w w' : worldA) ev :
  flow n due w → not_submit ev → step w ev = Some w' → flow n due w'.
Proof.
  intros Hflow Hns Hstep.
  assert (Hn : (n ≤ length (issued w))%nat) by (by destruct Hflow).
  destruct (step_classify n w w' ev Hn Hns Hstep)
    as [Hsame | [(i & due' & -> & Hi & Hdue & ->) | (id & o & c & -> & Hid & Hh & Hw')]].
  - by apply (flow_same n due w).
  - destruct Hflow as [Ht Hhs Hr Hl _ | c Ht | t Ht]; [|by rewrite Ht in Hi..].
    rewrite Ht in Hi. destruct i as [|i]; [|done]. injection Hi as <-.
    apply (Refreshing n due _ (refetch_call (now w)));
      unfold holders, refetch_times in *; cbn [ui now issued timers] in *.
    + by rewrite Ht.
    + by rewrite holders_new, Hhs.
    + done.
    + by rewrite refetch_times_new, Hr.
    + done.
    + done.
    + done.
    + rewrite length_app. lia.
  - destruct Hflow as [Ht Hhs Hr Hl _ | c0 Ht Hhs Hc0 Hr Hd Hnow Hl _ | t Ht Hhs Hr Hd Hnow Hl _];
      unfold holders in Hhs.
    + by destruct (holders_settle_holder _ id c (now w) o [] Hid Hh Hhs (le_S _ _ (le_n 0))).
    + destruct (holders_settle_holder _ id c (now w) o [c0] Hid Hh Hhs (le_n 1))
        as [[= ->] Hnone].
      rewrite (Hw' Hc0).
      apply (Finished n due _ (call_time c));
        unfold holders, refetch_times in *; cbn [ui now issued timers] in *; try done.
      * by rewrite refetch_times_settle.
      * by rewrite length_insert.
    + by destruct (holders_settle_holder _ id c (now w) o [] Hid Hh Hhs (le_S _ _ (le_n 0))).
Qed.

Lemma flow_run n due (w w' : worldA) evs :
  flow n due w → Forall not_submit evs → run w evs = Some w' → flow n due w'.
Proof.
  intros Hflow Hns. revert Hflow.
  apply (run_invariant_where not_submit (flow n due) w evs w'); [|done].
  intros w1 ev w2 Hev Hf Hs. by apply (flow_step n due w1 w2 ev).
Qed.

Lemma pending_refetches_holders (w : worldA) :
  pending_refetches w = filter (λ c, is_refetch c = true) (holders w).
Proof.
  unfold pending_refetches, holders. rewrite list_filter_filter.
  apply list_filter_iff. intros c. unfold is_refetch, holds_lock.
  destruct (call_outcome c), (call_k c) as [[]| |]; intuition congruence.
Qed.

(** The world right after the POST [id] came back ok. *)
Lemma flow_starts (w : worldA) id c r :
  reachable w →
  issued w !! id = Some c →
  call_k c = VariantA.AwaitPost →
  call_outcome c = None →
  ok r = true →
  ∃ w1, step w (Settle id (Fulfilled r)) = Some w1
    ∧ flow (length (issued w)) (now w + 8000) w1
    ∧ length (issued w1) = length (issued w).
Proof.
  intros Hreach Hid Hk Hout Hok.
  pose proof (busy_invariant w Hreach) as Hbusy.
  assert (Hh : holds_lock c = true) by (unfold holds_lock; by rewrite Hout, Hk).
  destruct w as [st tnow calls tms]. unfold tokens, holders in Hbusy.
  cbn [ui now issued timers] in *.
  assert (Hin : c ∈ filter (λ c, holds_lock c = true) calls).
  { apply list_elem_of_filter. split; [done|]. by eapply list_elem_of_lookup_2. }
  assert (Hone : VariantA.isLoading st = true
                 ∧ (length (filter (λ c, holds_lock c = true) calls) ≤ 1)%nat
                 ∧ tms = []).
  { assert (1 ≤ length (filter (λ c, holds_lock c = true) calls))%nat as Hge.
    { destruct (filter (λ c, holds_lock c = true) calls);
        [by apply elem_of_nil in Hin | cbn; lia]. }
    cbn in *. destruct (VariantA.isLoading st); [|lia].
    destruct tms; cbn in Hbusy; [|lia]. split; [done|]. split; [lia|done]. }
  destruct Hone as (Hl & Hlen & ->).
  destruct (holders_settle_holder calls id c tnow (Fulfilled r) _ Hid Hh eq_refl Hlen)
    as [_ Hnone].
  unfold step. cbn [ui now issued timers resume VariantA.app].
  rewrite Hid, Hout, Hk. cbn [VariantA.on_settle].
  destruct (handleSubmit_resume_cases (Fulfilled r) st) as [[_ E]|(err & Htry & _)].
  - rewrite E. eexists. split; [reflexivity|]. cbn.
    split; [|by rewrite length_insert].
    apply Waiting; unfold holders, refetch_times; cbn [ui now issued timers]; try done.
    + rewrite drop_ge by (by rewrite length_insert). done.
    + by rewrite length_insert.
  - unfold VariantA.handleSubmit_try in Htry. cbn in Htry. by rewrite Hok in Htry.
Qed.

(** ** The health probes of Variant A *)

Lemma omap_split_at {A B} (f : A → option B) (l : list A) i x :
  l !! i = Some x →
  omap f l = omap f (take i l) ++ option_list (f x) ++ omap f (drop (S i) l).
Proof.
  intros Hi. rewrite <- (take_drop_middle l i x Hi) at 1.
  rewrite omap_app. cbn. by destruct (f x).
Qed.

Lemma omap_insert_at {A B} (f : A → option B) (l : list A) i x y :
  l !! i = Some x →
  omap f (<[i:=y]> l) = omap f (take i l) ++ option_list (f y) ++ omap f (drop (S i) l).
Proof.
  intros Hi. rewrite insert_take_drop by (by eapply lookup_lt_Some).
  rewrite omap_app. cbn. by destruct (f y).
Qed.

Lemma omap_insert_none {A B} (f : A → option B) (l : list A) i x y :
  l !! i = Some x → f x = None → f y = None → omap f (<[i:=y]> l) = omap f l.
Proof.
  intros Hi Hx Hy.
  by rewrite (omap_insert_at f l i x y Hi), (omap_split_at f l i x Hi), Hx, Hy.
Qed.

(** The entry of a probe in flight is the last one of a sequential trace;
    settling it gives the trace with one more outcome. *)
Lemma sequential_pending t0 entries outs pre name rest time post :
  sequential t0 entries outs = pre ++ (name, rest, time, None) :: post →
  post = []
  ∧ length pre = length outs
  ∧ (∃ url, entries !! length outs = Some (name, url))
  ∧ ∀ t o, sequential t0 entries (outs ++ [(t, o)])
           = pre ++ (name, rest, time, Some (t, o))
               :: match rest with
                  | [] => []
                  | (name', _) :: rest' => [(name', rest', t, None)]
                  end.
Proof.
  revert t0 outs pre.
  induction entries as [|[n0 u0] rest0 IH]; intros t0 outs pre Heq; cbn in Heq.
  - by destruct pre.
  - destruct outs as [|[t' o'] outs']; cbn in Heq.
    + destruct pre as [|p pre]; cbn in Heq.
      * simplify_eq. repeat split; [by eexists|].
        intros t o. cbn. by destruct rest as [|[]].
      * injection Heq as _ Heq. by destruct pre.
    + destruct pre as [|p pre]; cbn in Heq; [done|].
      injection Heq as <- Heq.
      destruct (IH t' outs' pre Heq) as (-> & Hlen & Hurl & Hnext).
      repeat split; [cbn; by rewrite Hlen | done |].
      intros t o. cbn. by rewrite Hnext.
Qed.

Lemma services_names_distinct : NoDup VariantA.services.*1.
Proof. apply (bool_decide_unpack (NoDup VariantA.services.*1)). by vm_compute. Qed.

Lemma services_same_name i j name url url' :
  VariantA.services !! i = Some (name, url) →
  VariantA.services !! j = Some (name, url') → i = j.
Proof.
  intros Hi Hj.
  apply (NoDup_lookup _ i j name services_names_distinct);
    rewrite list_lookup_fmap; [by rewrite Hi | by rewrite Hj].
Qed.

Lemma indicator_snoc outs t o i :
  indicator (outs ++ [(t, o)]) i
  = if decide (i = length outs) then probe_status o else indicator outs i.
Proof.
  unfold indicator. case_decide as Hi.
  - subst i. by rewrite lookup_app_r, Nat.sub_diag.
  - destruct (decide (i < length outs)%nat).
    + by rewrite lookup_app_l.
    + rewrite !lookup_ge_None_2; [done | lia | rewrite length_app; cbn; lia].
Qed.

Lemma probes_boot t0 : probes_in_sequence (boot VariantA.app t0).
Proof.
  exists t0, []. split; [reflexivity|].
  intros [|[|[|i]]] name url; cbn; intros [= <- <-]; reflexivity.
Qed.

Lemma perform_ui {app} (es : list (effect (cont app) (timer app))) (w : World app) :
  ui (perform app es w) = ui w.
Proof.
  revert w. induction es as [|e es IH]; intros w; [done|].
  unfold perform in *. cbn [foldl]. rewrite IH. by destruct e.
Qed.

Lemma probe_trace_new (calls : list callA) (c : callA) :
  omap probe_view (calls ++ [c]) = omap probe_view calls ++ option_list (probe_view c).
Proof. rewrite omap_app. cbn. by destruct (probe_view c). Qed.

Lemma probes_step (w w' : worldA) ev :
  probes_in_sequence w → step w ev = Some w' → probes_in_sequence w'.
Proof.
  intros (t0 & outs & Htrace & Hst) Hstep.
  stepA Hstep; unfold probes_in_sequence, probe_trace in *; cbn [ui now issued timers] in *.
  - injection Hstep as <-. by exists t0, outs.
  - destruct (calls !! id) as [c|] eqn:Hid; [|done].
    destruct (call_outcome c) eqn:Hout; [done|].
    destruct (call_k c) as [b|name rest|] eqn:Hk; cbn in Hstep.
    + injection Hstep as <-. exists t0, outs. cbn. split.
      * rewrite (omap_insert_none probe_view calls id c); try done;
          unfold probe_view; cbn; by rewrite Hk.
      * destruct (fetchLogs_resume_frame o st) as (_ & _ & Hs).
        destruct b; cbn; by rewrite Hs.
    + injection Hstep as <-.
      assert (Hv : probe_view c = Some (name, rest, call_time c, None))
        by (unfold probe_view; by rewrite Hk, Hout).
      rewrite (omap_split_at probe_view calls id c Hid), Hv in Htrace. cbn in Htrace.
      symmetry in Htrace.
      destruct (sequential_pending _ _ _ _ _ _ _ _ Htrace)
        as (Hpost & Hlen & (url & Hurl) & Hnext).
      exists t0, (outs ++ [(tnow, o)]). cbn. split.
      * rewrite Hnext.
        assert (Hv' : probe_view (settle_call VariantA.app tnow o c)
                      = Some (name, rest, call_time c, Some (tnow, o)))
          by (unfold probe_view; cbn; by rewrite Hk).
        destruct rest as [|[name' url'] rest']; cbn.
        -- rewrite (omap_insert_at probe_view calls id c _ Hid), Hv', Hpost. done.
        -- rewrite probe_trace_new.
           rewrite (omap_insert_at probe_view calls id c _ Hid), Hv', Hpost. cbn.
           by rewrite <- app_assoc.
      * intros i name0 url0 Hi. rewrite perform_ui. cbn.
        rewrite indicator_snoc. case_decide as Hcase.
        -- subst i. rewrite Hurl in Hi. injection Hi as <- <-.
           by rewrite lookup_insert_eq.
        -- rewrite lookup_insert_ne; [by eapply Hst|].
           intros <-. apply Hcase. symmetry. by eapply services_same_name.
    + exists t0, outs. split.
      * destruct (handleSubmit_resume_cases o st) as [[_ E]|(err & _ & E)];
          rewrite E in Hstep; injection Hstep as <-; cbn;
          rewrite (omap_insert_none probe_view calls id c); try done;
          unfold probe_view; cbn; by rewrite Hk.
      * destruct (handleSubmit_resume_cases o st) as [[_ E]|(err & _ & E)];
          rewrite E in Hstep; injection Hstep as <-; cbn; done.
  - destruct (tms !! i) as [[due cb]|] eqn:Hi; [|done].
    destruct (due <=? tnow); [|done]. destruct cb. cbn in Hstep.
    injection Hstep as <-. exists t0, outs. cbn. split; [|done].
    rewrite probe_trace_new. cbn. by rewrite app_nil_r.
  - destruct u as [|v|]; cbn in Hstep.
    + destruct (VariantA.disabled st); [done|].
      exists t0, outs.
      destruct (handleSubmit_A_cases st) as [[_ E]|[_ E]]; rewrite E in Hstep;
        injection Hstep as <-; cbn; [done|].
      split; [|done]. rewrite probe_trace_new. cbn. by rewrite app_nil_r.
    + destruct (VariantA.disabled st); [done|].
      injection Hstep as <-. by exists t0, outs.
    + injection Hstep as <-. exists t0, outs. cbn. split; [|done].
      rewrite probe_trace_new. cbn. by rewrite app_nil_r.
Qed.

Lemma probes_invariant (w : worldA) : reachable w → probes_in_sequence w.
Proof.
  apply (reachable_invariant probes_in_sequence).
  - apply probes_boot.
  - intros w1 ev w2. apply probes_step.
Qed.

(** ** The health probe of Variant B *)

Lemma handleSubmit_B_resume_frame eng o st :
  (VariantB.handleSubmit_resume eng o st).2 = []
  ∧ VariantB.statuses (VariantB.handleSubmit_resume eng o st).1 = VariantB.statuses st
  ∧ VariantB.isLoading (VariantB.handleSubmit_resume eng o st).1 = false.
Proof.
  unfold VariantB.handleSubmit_resume.
  by destruct (VariantB.handleSubmit_try eng o).
Qed.

Lemma handleSubmit_B_cases st :
  (whitespace_only (VariantB.prompt st) = true
   ∧ VariantB.handleSubmit st = (st, [PreventDefault]))
  ∨ (whitespace_only (VariantB.prompt st) = false
     ∧ VariantB.handleSubmit st
       = (VariantB.setLastResponse JNull
            (VariantB.setError None (VariantB.setIsLoading true st)),
          [PreventDefault; Fetch (VariantB.post_request (VariantB.prompt st)) VariantB.AwaitPost])).
Proof.
  unfold VariantB.handleSubmit. rewrite trim_empty.
  destruct (whitespace_only (VariantB.prompt st)); eauto.
Qed.

Lemma probe_B_boot eng t0 : probed_once (boot (VariantB.app eng) t0).
Proof. by exists t0, None. Qed.

Lemma probe_B_step eng (w w' : World (VariantB.app eng)) ev :
  probed_once w → step w ev = Some w' → probed_once w'.
Proof.
  intros (t0 & out & Htrace & Hst) Hstep.
  stepB Hstep; unfold probed_once, probe_trace_B in *; cbn [ui now issued timers] in *.
  - injection Hstep as <-. by exists t0, out.
  - destruct (calls !! id) as [c|] eqn:Hid; [|done].
    destruct (call_outcome c) eqn:Hout; [done|].
    destruct (call_k c) eqn:Hk; cbn in Hstep.
    + injection Hstep as <-.
      assert (Hv : probe_view_B c = Some (call_time c, None))
        by (unfold probe_view_B; by rewrite Hk, Hout).
      rewrite (omap_split_at probe_view_B calls id c Hid), Hv in Htrace. cbn in Htrace.
      destruct (omap probe_view_B (take id calls)) as [|x xs] eqn:Hpre;
        cbn in Htrace; [|by destruct xs].
      injection Htrace as <- <- Hpost.
      exists (call_time c), (Some (tnow, o)). cbn. split; [|done].
      rewrite (omap_insert_at probe_view_B calls id c _ Hid), Hpre, Hpost.
      unfold probe_view_B. cbn. by rewrite Hk.
    + destruct (handleSubmit_B_resume_frame eng o st) as (He & Hs & _).
      destruct (VariantB.handleSubmit_resume eng o st) as [st' es]. cbn in He, Hs.
      subst es. injection Hstep as <-. exists t0, out. cbn. split; [|by rewrite Hs].
      rewrite (omap_insert_none probe_view_B calls id c); try done;
        unfold probe_view_B; cbn; by rewrite Hk.
  - destruct (tms !! i) as [[due []]|]; done.
  - destruct u as [|v]; cbn in Hstep.
    + destruct (VariantB.disabled st); [done|]. exists t0, out.
      destruct (handleSubmit_B_cases st) as [[_ E]|[_ E]]; rewrite E in Hstep;
        injection Hstep as <-; cbn; [done|].
      split; [|done]. rewrite omap_app. cbn. by rewrite app_nil_r.
    + destruct (VariantB.disabled st); [done|].
      injection Hstep as <-. by exists t0, out.
Qed.

Lemma probe_B_invariant eng (w : World (VariantB.app eng)) :
  reachable w → probed_once w.
Proof.
  apply (reachable_invariant probed_once).
  - apply probe_B_boot.
  - intros w1 ev w2. apply probe_B_step.
Qed.







(** ** The order of the probes of Variant A *)

Lemma sequential_consecutive t0 entries outs i p q :
  sequential t0 entries outs !! i = Some p →
  sequential t0 entries outs !! S i = Some q →
  ∃ t o, p.2 = Some (t, o) ∧ q.1.2 = t.
Proof.
  revert t0 outs i.
  induction entries as [|[n0 u0] rest0 IH]; intros t0 outs i Hp Hq; [done|].
  destruct outs as [|[t' o'] outs']; cbn in Hp, Hq; [by destruct i|].
  destruct i as [|i]; cbn in Hp, Hq.
  - injection Hp as <-. exists t', o'. split; [done|].
    destruct rest0 as [|[n1 u1] rest1]; [done|].
    destruct outs' as [|[t'' o''] outs'']; cbn in Hq; by injection Hq as <-.
  - by apply (IH t' outs' i).
Qed.

Lemma sequential_names t0 entries outs :
  (λ p, p.1.1.1) <$> sequential t0 entries outs
  = take (length (sequential t0 entries outs)) entries.*1.
Proof.
  revert t0 outs. induction entries as [|[n0 u0] rest0 IH]; intros t0 outs; [done|].
  destruct outs as [|[t' o'] outs']; cbn; [by rewrite take_0|].
  by rewrite IH.
Qed.

(** C8 as worded fails in Variant A: the probe of the orchestrator is
    never issued while the probe of the supervisor has not settled. *)
Lemma C8_counterexample : ¬ Wording.probes_unordered.
Proof.
  intros H.
  destruct (H "orchestrator" "supervisor") as (w & Hreach & Hiss & Hnot).
  - unfold VariantA.services. cbn. set_solver.
  - unfold VariantA.services. cbn. set_solver.
  - done.
  - destruct (probes_invariant w Hreach) as (t0 & outs & Htrace & _).
    destruct Hiss as (rest & t & out & Hin). rewrite Htrace in Hin.
    destruct outs as [|[t' o'] outs'].
    + cbn in Hin. apply list_elem_of_singleton in Hin. done.
    + apply Hnot. exists (tail VariantA.services), t0, t', o'.
      rewrite Htrace. cbn. apply list_elem_of_here.
Qed.

Lemma sequential_earlier_settled t0 entries outs i j q :
  sequential t0 entries outs !! j = Some q →
  (i < j)%nat →
  ∃ p t o, sequential t0 entries outs !! i = Some p ∧ p.2 = Some (t, o).
Proof.
  intros Hq Hij.
  assert (is_Some (sequential t0 entries outs !! i)) as [p Hp].
  { apply lookup_lt_is_Some. apply lookup_lt_Some in Hq. lia. }
  assert (is_Some (sequential t0 entries outs !! S i)) as [p' Hp'].
  { apply lookup_lt_is_Some. apply lookup_lt_Some in Hq. lia. }
  destruct (sequential_consecutive _ _ _ _ _ _ Hp Hp') as (t & o & Hout & _).
  by exists p, t, o.
Qed.

(** C8, amended.  Variant A, in every reachable world: the probes have been
    issued in the order of [services]; each probe after the first was
    issued at the moment the one before it settled; so a probe has been
    issued only if the probes of all earlier services have settled. *)
Theorem C8_probes_run_one_after_the_other (w : worldA) :
  reachable w →
  (λ p, p.1.1.1) <$> probe_trace w
    = take (length (probe_trace w)) VariantA.services.*1
  ∧ (∀ i p q,
       probe_trace w !! i = Some p →
       probe_trace w !! S i = Some q →
       ∃ t o, p.2 = Some (t, o) ∧ q.1.2 = t)
  ∧ (∀ i j earlier name,
       VariantA.services.*1 !! i = Some earlier →
       VariantA.services.*1 !! j = Some name →
       (i < j)%nat →
       probe_issued w name →
       probe_settled w earlier).
Proof.
  intros Hreach.
  destruct (probes_invariant w Hreach) as (t0 & outs & Htrace & _).
  unfold probe_issued, probe_settled. rewrite Htrace.
  pose proof (sequential_names t0 VariantA.services outs) as Hnames.
  split; [done|]. split.
  - intros i p q. apply sequential_consecutive.
  - intros i j earlier name Hi Hj Hij (rest & t & out & Hin).
    apply list_elem_of_lookup in Hin as [j' Hj'].
    assert (Hname : VariantA.services.*1 !! j' = Some name).
    { apply (f_equal (λ l, l !! j')) in Hnames.
      rewrite list_lookup_fmap, Hj' in Hnames. cbn in Hnames.
      symmetry in Hnames. by apply lookup_take_Some in Hnames as [? _]. }
    assert (j' = j) as -> by (by eapply (NoDup_lookup _ j' j name services_names_distinct)).
    destruct (sequential_earlier_settled _ _ _ i j _ Hj' Hij) as (p & t' & o & Hp & Hout).
    assert (Hpn : p.1.1.1 = earlier).
    { apply (f_equal (λ l, l !! i)) in Hnames.
      rewrite list_lookup_fmap, Hp in Hnames. cbn in Hnames.
      symmetry in Hnames. apply lookup_take_Some in Hnames as [Hn _].
      rewrite Hi in Hn. by injection Hn. }
    destruct p as [[[pn pr] pt] po]. cbn in Hpn, Hout. subst pn po.
    exists pr, pt, t', o. by eapply list_elem_of_lookup_2.
Qed.

(** ** The delayed re-fetch of Variant A *)

(** C2.  Variant A.  Let the POST of a submission come back ok at time
    [now w], when [n] calls have been issued, and let the page run on
    through any events other than a new submission.  Then the world is in
    one of three stages:
    - the timer is pending, due at [now w + 8000]; the flow has re-fetched
      nothing; the form is disabled; the timer can go off as soon as the
      clock reaches that time;
    - the timer has gone off and the flow has re-fetched exactly once, at a
      time not before [now w + 8000]; that call is in flight and the form
      is still disabled;
    - that one re-fetch has settled, and the form is enabled.
    The re-fetches counted are those of line 106.  The only other fetches
    of the log feed are those of the refresh button: when it is not
    clicked, none is issued. *)
Theorem C2_refetch_once_after_delay
    (w : worldA) (id : nat) (c : callA) (r : Response) :
  reachable w →
  issued w !! id = Some c →
  call_k c = VariantA.AwaitPost →
  call_outcome c = None →
  ok r = true →
  ∃ w1, step w (Settle id (Fulfilled r)) = Some w1
    ∧ ∀ evs w2, Forall not_submit evs → run w1 evs = Some w2 →
        let n := length (issued w) in
        let due := now w + 8000 in
        ((timers w2 = [(due, VariantA.Refetch)]
          ∧ refetch_times n w2 = []
          ∧ pending_refetches w2 = []
          ∧ VariantA.isLoading (ui w2) = true
          ∧ (due ≤ now w2 → is_Some (step w2 (Fire 0))))
         ∨ (∃ c', timers w2 = []
              ∧ refetch_times n w2 = [call_time c']
              ∧ pending_refetches w2 = [c']
              ∧ due ≤ call_time c' ∧ call_time c' ≤ now w2
              ∧ VariantA.isLoading (ui w2) = true)
         ∨ (∃ t, timers w2 = []
              ∧ refetch_times n w2 = [t]
              ∧ pending_refetches w2 = []
              ∧ due ≤ t ∧ t ≤ now w2
              ∧ VariantA.isLoading (ui w2) = false))
        ∧ (Forall not_refresh evs → plain_fetch_times n w2 = []).
Proof.
  intros Hreach Hid Hk Hout Hok.
  destruct (flow_starts w id c r Hreach Hid Hk Hout Hok) as (w1 & Hstep & Hflow & Hlen).
  exists w1. split; [done|]. intros evs w2 Hns Hrun n due.
  pose proof (flow_run n due w1 w2 evs Hflow Hns Hrun) as Hflow2.
  split; cycle 1.
  { intros Hnr. subst n. rewrite <- Hlen in *.
    rewrite (plain_run _ w1 w2 evs (le_n _) Hnr Hrun).
    unfold plain_fetch_times. by rewrite drop_all. }
  rewrite pending_refetches_holders.
  destruct Hflow2 as [Ht Hh Hr Hl _ | c' Ht Hh Hc Hr Hd Hnow Hl _ | t Ht Hh Hr Hd Hnow Hl _].
  - left. rewrite Hh. repeat split; try done.
    intros Hdue. unfold step. rewrite Ht. cbn.
    apply N.leb_le in Hdue. by rewrite Hdue.
  - right. left. exists c'. rewrite Hh. repeat split; try done.
    rewrite filter_cons, filter_nil. by rewrite decide_True.
  - right. right. exists t. rewrite Hh. repeat split; done.
Qed.

(** ** The prompt of Variant A *)

Lemma prompt_step (w w' : worldA) ev :
  not_change ev → step w ev = Some w' →
  VariantA.prompt (ui w') = VariantA.prompt (ui w).
Proof.
  intros Hnc Hstep. stepA Hstep; cbn [ui now issued timers] in *.
  - by injection Hstep as <-.
  - destruct (calls !! id) as [c|]; [|done].
    destruct (call_outcome c); [done|].
    destruct (call_k c) as [b|name rest|]; cbn in Hstep.
    + injection Hstep as <-. destruct (fetchLogs_resume_frame o st) as (Hp & _).
      destruct b; cbn; by rewrite Hp.
    + injection Hstep as <-. by rewrite perform_ui.
    + destruct (handleSubmit_resume_cases o st) as [[_ E]|(err & _ & E)];
        rewrite E in Hstep; by injection Hstep as <-.
  - destruct (tms !! i) as [[due cb]|]; [|done].
    destruct (due <=? tnow); [|done]. destruct cb. cbn in Hstep.
    by injection Hstep as <-.
  - destruct u as [|v|]; cbn in Hstep.
    + destruct (VariantA.disabled st); [done|].
      destruct (handleSubmit_A_cases st) as [[_ E]|[_ E]]; rewrite E in Hstep;
        by injection Hstep as <-.
    + by destruct (Hnc v).
    + by injection Hstep as <-.
Qed.

(** C10.  Variant A: over any run of the page in which the user does not
    edit the textarea (whatever the submissions and their outcomes) the
    prompt stays what it was. *)
Theorem C10_variant_A_keeps_the_prompt
    (w w' : worldA) (evs : list (event VariantA.app)) :
  Forall not_change evs →
  run w evs = Some w' →
  VariantA.prompt (ui w') = VariantA.prompt (ui w).
Proof.
  intros Hnc Hrun.
  apply (run_invariant_where not_change
           (λ x, VariantA.prompt (ui x) = VariantA.prompt (ui w)) w evs w');
    try done.
  intros w1 ev w2 Hev Hp Hs. by rewrite (prompt_step w1 w2 ev Hev Hs).
Qed.

Example expanding_an_entry_shows_its_outputs toLocaleString :
  LogItem.details (LogItem.render toLocaleString Examples.a_log false) = None
  ∧ LogItem.details
      (LogItem.render toLocaleString Examples.a_log (LogItem.onClick false).1)
    = Some Examples.agents.
Proof. by split. Qed.

Example run_of_the_refetch_schedule :
  ∃ w, run Examples.submitted_A Examples.refetch_schedule = Some w
    ∧ refetch_times 3 w = [8010]
    ∧ VariantA.isLoading (ui w) = false
    ∧ VariantA.logs (ui w) = JArr Examples.two_logs
    ∧ VariantA.prompt (ui w) = Examples.status_report.
Proof.
  eexists. split; [apply (run_default _ (boot _ 0)); vm_compute; reflexivity|].
  vm_compute. auto.
Qed.

Example the_timer_is_not_early :
  run Examples.submitted_A [Settle 2 (Fulfilled Examples.ok200); Tick 7999; Fire 0] = None.
Proof. reflexivity. Qed.

Example indicators_after_the_probes :
  VariantA.statuses (ui Examples.probed_A)
  = {[ "supervisor" := StatusOk; "orchestrator" := StatusError; "monitor" := StatusError ]}.
Proof. reflexivity. Qed.

Example orchestrator_waits_for_supervisor :
  probe_trace (boot VariantA.app 0)
  = [("supervisor", tail VariantA.services, 0, None)].
Proof. vm_compute. reflexivity. Qed.

(** C2 after "status report" was submitted at time 10 and answered
    with 200. *)
Lemma C2_witness :
  ∃ w1, step Examples.submitted_A (Settle 2 (Fulfilled Examples.ok200)) = Some w1
    ∧ ∀ evs w2, Forall not_submit evs → run w1 evs = Some w2 →
        let n := length (issued Examples.submitted_A) in
        let due := now Examples.submitted_A + 8000 in
        ((timers w2 = [(due, VariantA.Refetch)]
          ∧ refetch_times n w2 = []
          ∧ pending_refetches w2 = []
          ∧ VariantA.isLoading (ui w2) = true
          ∧ (due ≤ now w2 → is_Some (step w2 (Fire 0))))
         ∨ (∃ c', timers w2 = []
              ∧ refetch_times n w2 = [call_time c']
              ∧ pending_refetches w2 = [c']
              ∧ due ≤ call_time c' ∧ call_time c' ≤ now w2
              ∧ VariantA.isLoading (ui w2) = true)
         ∨ (∃ t, timers w2 = []
              ∧ refetch_times n w2 = [t]
              ∧ pending_refetches w2 = []
              ∧ due ≤ t ∧ t ≤ now w2
              ∧ VariantA.isLoading (ui w2) = false))
        ∧ (Forall not_refresh evs → plain_fetch_times n w2 = []).
Proof.
  apply (C2_refetch_once_after_delay Examples.submitted_A 2 Examples.post_A Examples.ok200).
  - exists 0, [VariantA.user (VariantA.Change Examples.status_report);
               Tick 10; VariantA.user VariantA.Submit].
    reflexivity.
  - reflexivity.
  - reflexivity.
  - reflexivity.
  - reflexivity.
Defined.

(** C3 at a prompt of a space, an ideographic space, a line feed and a
    tab. *)
Lemma C3_witness :
  VariantA.handleSubmit (ui Examples.blank_A) = (ui Examples.blank_A, [PreventDefault])
  ∧ VariantB.handleSubmit (ui Examples.blank_B) = (ui Examples.blank_B, [PreventDefault])
  ∧ step Examples.blank_A (VariantA.user VariantA.Submit)
    = (if VariantA.disabled (ui Examples.blank_A) then None else Some Examples.blank_A)
  ∧ step Examples.blank_B (VariantB.user v8 VariantB.Submit)
    = (if VariantB.disabled (ui Examples.blank_B) then None else Some Examples.blank_B).
Proof.
  apply (C3_blank_prompt_is_ignored v8 Examples.blank Examples.blank_A Examples.blank_B);
    reflexivity.
Defined.


(** C6, amended, at the bodies [{"error": "quota exceeded"}], a body that
    is not JSON, and [{}]. *)
Lemma C6_witness :
  VariantB.error
    (VariantB.handleSubmit_resume v8
       (Fulfilled (Examples.http500 Examples.quota_error)) (ui Examples.submitted_B)).1
  = Some (lit "quota exceeded")
  ∧ VariantB.error
      (VariantB.handleSubmit_resume v8
         (Fulfilled Examples.unavailable503) (ui Examples.submitted_B)).1
    = Some (VariantB.status_message Examples.unavailable503)
  ∧ VariantB.error
      (VariantB.handleSubmit_resume v8
         (Fulfilled (Examples.http500 (JObj []))) (ui Examples.submitted_B)).1
    = Some (VariantB.status_message (Examples.http500 (JObj []))).
Proof.
  split; [|split].
  - apply (C6_error_field_or_generic_message v8 (ui Examples.submitted_B)
             (Examples.http500 Examples.quota_error) eq_refl)
      with (v := Examples.quota_error); [reflexivity | reflexivity | discriminate].
  - apply (C6_error_field_or_generic_message v8 (ui Examples.submitted_B)
             Examples.unavailable503 eq_refl)
      with (e := ErrorObj (lit "Unexpected token < in JSON")).
    reflexivity.
  - apply (C6_error_field_or_generic_message v8 (ui Examples.submitted_B)
             (Examples.http500 (JObj [])) eq_refl)
      with (v := JObj []); [reflexivity | discriminate | discriminate].
Defined.

(** C7, amended, on the page that lists the earlier entry: a 200 with two
    other entries, a 200 cut short, a 503, and "Failed to fetch". *)
Lemma C7_witness :
  VariantA.logs (ui Examples.listed_A) = JArr Examples.earlier_logs
  ∧ VariantA.logs
      (VariantA.on_settle 50 (VariantA.AwaitLogs false)
         (Fulfilled Examples.ok_logs) (ui Examples.listed_A)).1
    = JArr Examples.two_logs
  ∧ (let st' := (VariantA.on_settle 50 (VariantA.AwaitLogs false)
                   (Fulfilled Examples.truncated200) (ui Examples.listed_A)).1 in
     VariantA.error_line st' = Some (lit "Unexpected end of JSON input")
     ∧ VariantA.logs st' = VariantA.logs (ui Examples.listed_A))
  ∧ (let st' := (VariantA.on_settle 50 (VariantA.AwaitLogs false)
                   (Fulfilled Examples.unavailable503) (ui Examples.listed_A)).1 in
     VariantA.error_line st' = Some (lit "Failed to fetch logs")
     ∧ VariantA.logs st' = VariantA.logs (ui Examples.listed_A))
  ∧ (let st' := (VariantA.on_settle 50 (VariantA.AwaitLogs false)
                   (Rejected Examples.failed_to_fetch) (ui Examples.listed_A)).1 in
     VariantA.error_line st' = Some (lit "Failed to fetch")
     ∧ VariantA.logs st' = VariantA.logs (ui Examples.listed_A)).
Proof.
  destruct (C7_fetchLogs_replaces_or_reports 50 false (ui Examples.listed_A))
    as (Hok & Hcut & Hbad & Hnet).
  split; [reflexivity|]. split; [|split; [|split]].
  - apply Hok; reflexivity.
  - apply (Hcut Examples.truncated200 (ErrorObj (lit "Unexpected end of JSON input")));
      [reflexivity | reflexivity | eexists _, _; reflexivity].
  - apply Hbad. reflexivity.
  - apply (Hnet Examples.failed_to_fetch). eexists _, _. reflexivity.
Defined.

(** C8, amended, at the world where all three probes have settled. *)
Lemma C8_witness :
  (λ p, p.1.1.1) <$> probe_trace Examples.probed_A
    = take (length (probe_trace Examples.probed_A)) VariantA.services.*1
  ∧ (∀ i p q,
       probe_trace Examples.probed_A !! i = Some p →
       probe_trace Examples.probed_A !! S i = Some q →
       ∃ t o, p.2 = Some (t, o) ∧ q.1.2 = t)
  ∧ (∀ i j earlier name,
       VariantA.services.*1 !! i = Some earlier →
       VariantA.services.*1 !! j = Some name →
       (i < j)%nat →
       probe_issued Examples.probed_A name →
       probe_settled Examples.probed_A earlier).
Proof.
  apply (C8_probes_run_one_after_the_other Examples.probed_A).
  exists 0, [Tick 40; Settle 1 (Fulfilled Examples.ok200);
             Tick 30; Settle 2 (Rejected Examples.failed_to_fetch);
             Tick 20; Settle 3 (Fulfilled Examples.unavailable503)].
  apply run_default. vm_compute. reflexivity.
Defined.

(** C10 at "status report", submitted and answered with 503. *)
Lemma C10_witness :
  ∃ w', run Examples.typed_A
          [Tick 10; VariantA.user VariantA.Submit; Settle 2 (Fulfilled Examples.unavailable503)]
        = Some w'
    ∧ VariantA.prompt (ui w') = VariantA.prompt (ui Examples.typed_A).
Proof.
  eexists. split; [apply (run_default _ (boot _ 0)); vm_compute; reflexivity|].
  apply (C10_variant_A_keeps_the_prompt Examples.typed_A _
           [Tick 10; VariantA.user VariantA.Submit;
            Settle 2 (Fulfilled Examples.unavailable503)]).
  - repeat constructor; intros v; discriminate.
  - apply run_default. vm_compute. reflexivity.
Defined.


(* ================================================================== *)
(** * Further properties of the two pages *)
(* ================================================================== *)

Import Traffic.

(** ** Submitting a prompt *)

Lemma step_submit_A (w : worldA) :
  whitespace_only (VariantA.prompt (ui w)) = false →
  VariantA.isLoading (ui w) = false →
  step w (VariantA.user VariantA.Submit)
  = Some (Build_World VariantA.app
            (VariantA.setError None (VariantA.setIsLoading true (ui w)))
            (now w)
            (issued w ++ [post_call_A (now w) (VariantA.prompt (ui w))])
            (timers w)).
Proof.
  intros Hp Hl. destruct w as [st t calls tms]. unfold step. cbn in *.
  unfold VariantA.disabled. rewrite Hl.
  destruct (handleSubmit_A_cases st) as [[E _]|[_ E]]; [congruence|].
  by rewrite E.
Qed.

Lemma step_submit_B eng (w : worldB eng) :
  whitespace_only (VariantB.prompt (ui w)) = false →
  VariantB.isLoading (ui w) = false →
  step w (VariantB.user eng VariantB.Submit)
  = Some (Build_World (VariantB.app eng)
            (VariantB.setLastResponse JNull
               (VariantB.setError None (VariantB.setIsLoading true (ui w))))
            (now w)
            (issued w ++ [post_call_B eng (now w) (VariantB.prompt (ui w))])
            (timers w)).
Proof.
  intros Hp Hl. destruct w as [st t calls tms]. unfold step. cbn in *.
  unfold VariantB.disabled. rewrite Hl.
  destruct (handleSubmit_B_cases st) as [[E _]|[_ E]]; [congruence|].
  by rewrite E.
Qed.



(** ** One submission at a time *)

(** X3.  Variant A, in every reachable world: the POSTs and re-fetches in
    flight and the pending timers number one when the form is disabled and
    none when it is enabled.  So there is never a second submission under
    way, and an enabled form has nothing pending that would disable or
    enable it. *)
Theorem one_submission_at_a_time_A (w : worldA) :
  reachable w →
  (length (holders w) + length (timers w))%nat
  = (if VariantA.isLoading (ui w) then 1 else 0)%nat.
Proof. apply busy_invariant. Qed.

Lemma post_in_flight_B_settle eng t o (c : callB eng) :
  post_in_flight_B (settle_call _ t o c) = false.
Proof. reflexivity. Qed.

Lemma posts_B_after_settle eng (calls : list (callB eng)) id c t o :
  calls !! id = Some c →
  (length (filter (λ c, post_in_flight_B c = true) (<[id := settle_call _ t o c]> calls))
   + (if post_in_flight_B c then 1 else 0)
   = length (filter (λ c, post_in_flight_B c = true) calls))%nat.
Proof.
  intros Hid.
  rewrite (filter_insert_at _ calls id c _ Hid), (filter_split_at _ calls id c Hid).
  cbn beta. rewrite post_in_flight_B_settle, !length_app.
  destruct (post_in_flight_B c); repeat case_decide; try done; cbn; lia.
Qed.

Lemma busy_B_step eng (w w' : worldB eng) ev :
  length (posts_in_flight_B w) = (if VariantB.isLoading (ui w) then 1 else 0)%nat →
  step w ev = Some w' →
  length (posts_in_flight_B w') = (if VariantB.isLoading (ui w') then 1 else 0)%nat.
Proof.
  intros Hinv Hstep. stepB Hstep; unfold posts_in_flight_B in *; cbn [ui issued timers] in *.
  - injection Hstep as <-. exact Hinv.
  - destruct (calls !! id) as [c|] eqn:Hid; [|done].
    destruct (call_outcome c) eqn:Hout; [done|].
    pose proof (posts_B_after_settle eng calls id c tnow o Hid) as Hlen.
    assert (Hh : post_in_flight_B c
                 = match call_k c with VariantB.AwaitPost => true | _ => false end)
      by (unfold post_in_flight_B; by rewrite Hout).
    rewrite Hh in Hlen; clear Hh.
    destruct (call_k c) eqn:Hk; cbn in Hstep.
    + injection Hstep as <-. cbn in *. lia.
    + destruct (handleSubmit_B_resume_frame eng o st) as (He & _ & Hl).
      destruct (VariantB.handleSubmit_resume eng o st) as [st' es]. cbn in He, Hl.
      subst es. injection Hstep as <-. cbn in *. rewrite Hl.
      destruct (VariantB.isLoading st); lia.
  - destruct (tms !! i) as [[due []]|]; done.
  - destruct u as [|v]; cbn in Hstep.
    + unfold VariantB.disabled in Hstep. destruct (VariantB.isLoading st) eqn:Hl; [done|].
      destruct (handleSubmit_B_cases st) as [[_ E]|[_ E]]; rewrite E in Hstep;
        injection Hstep as <-; cbn in *; rewrite ?Hl; [lia|].
      filter_new_call. lia.
    + unfold VariantB.disabled in Hstep. destruct (VariantB.isLoading st) eqn:Hl; [done|].
      injection Hstep as <-. cbn in *. rewrite Hl. lia.
Qed.

(** X4.  Variant B, in every reachable world: exactly one POST is in flight
    when the form is disabled and none when it is enabled; there is never a
    second submission under way. *)
Theorem one_submission_at_a_time_B (eng : Engine) (w : worldB eng) :
  reachable w →
  length (posts_in_flight_B w) = (if VariantB.isLoading (ui w) then 1 else 0)%nat.
Proof.
  apply (reachable_invariant
           (λ w, length (posts_in_flight_B w)
                 = (if VariantB.isLoading (ui w) then 1 else 0)%nat)).
  - intros t0. reflexivity.
  - intros w1 ev w2. apply busy_B_step.
Qed.

(** ** What is sent *)

Lemma sent_by_A_settle t o (c : callA) : sent_by_A (settle_call _ t o c) ↔ sent_by_A c.
Proof. done. Qed.

Lemma sent_A_step (w w' : worldA) ev :
  Forall sent_by_A (issued w) → step w ev = Some w' → Forall sent_by_A (issued w').
Proof.
  intros Hinv Hstep. stepA Hstep; cbn [ui issued timers] in *.
  - by injection Hstep as <-.
  - destruct (calls !! id) as [c|] eqn:Hid; [|done].
    destruct (call_outcome c) eqn:Hout; [done|].
    assert (Hc : sent_by_A c) by (by eapply Forall_lookup_1).
    assert (Hins : Forall sent_by_A (<[id:=settle_call VariantA.app tnow o c]> calls))
      by (by apply Forall_insert).
    destruct (call_k c) as [b|name rest|] eqn:Hk; cbn in Hstep.
    + by injection Hstep as <-.
    + injection Hstep as <-. destruct rest as [|[name' url'] rest']; cbn; [done|].
      apply Forall_app. split; [done|]. apply Forall_singleton.
      unfold sent_by_A in Hc |- *. rewrite Hk in Hc. cbn.
      destruct Hc as (pre & url & Hsv & _).
      exists (pre ++ [(name, url)]), url'. split; [|done].
      by rewrite <- app_assoc.
    + destruct (handleSubmit_resume_cases o st) as [[_ E]|(err & _ & E)];
        rewrite E in Hstep; by injection Hstep as <-.
  - destruct (tms !! i) as [[due cb]|] eqn:Hi; [|done].
    destruct (due <=? tnow); [|done]. destruct cb. cbn in Hstep.
    injection Hstep as <-. cbn. apply Forall_app. split; [done|].
    by apply Forall_singleton.
  - destruct u as [|v|]; cbn in Hstep.
    + destruct (VariantA.disabled st); [done|].
      destruct (handleSubmit_A_cases st) as [[_ E]|[Hp E]]; rewrite E in Hstep;
        injection Hstep as <-; cbn; [done|].
      apply Forall_app. split; [done|]. apply Forall_singleton.
      by exists (VariantA.prompt st).
    + destruct (VariantA.disabled st); [done|]. by injection Hstep as <-.
    + injection Hstep as <-. cbn. apply Forall_app. split; [done|].
      by apply Forall_singleton.
Qed.

Lemma sent_A_boot t0 : Forall sent_by_A (issued (boot VariantA.app t0)).
Proof.
  repeat constructor. by exists [], (lit "https://supervisor-service-497428235894.asia-northeast1.run.app/health").
Qed.

Lemma sent_A_invariant (w : worldA) :
  reachable w → Forall sent_by_A (issued w).
Proof.
  apply (reachable_invariant (λ w, Forall sent_by_A (issued w))).
  - apply sent_A_boot.
  - intros w1 ev w2. apply sent_A_step.
Qed.

(** X5.  Variant A, in every reachable world, every call ever issued is one
    of three kinds: a GET of the monitor's log feed with [limit=20] and the
    issue time as [t]; a GET of the health URL configured for the service
    being probed; or a POST of a prompt that is not blank to the
    supervisor.  The page sends nothing else, and never posts a blank
    prompt. *)
Theorem variant_A_sends_only_these (w : worldA) :
  reachable w → Forall sent_by_A (issued w).
Proof. apply sent_A_invariant. Qed.

Lemma sent_B_step eng (w w' : worldB eng) ev :
  Forall sent_by_B (issued w) → step w ev = Some w' → Forall sent_by_B (issued w').
Proof.
  intros Hinv Hstep. stepB Hstep; cbn [ui issued timers] in *.
  - by injection Hstep as <-.
  - destruct (calls !! id) as [c|] eqn:Hid; [|done].
    destruct (call_outcome c) eqn:Hout; [done|].
    assert (Hc : sent_by_B c) by (by eapply Forall_lookup_1).
    assert (Hins : Forall sent_by_B (<[id:=settle_call (VariantB.app eng) tnow o c]> calls))
      by (by apply Forall_insert).
    destruct (call_k c) eqn:Hk; cbn in Hstep.
    + by injection Hstep as <-.
    + destruct (handleSubmit_B_resume_frame eng o st) as (He & _ & _).
      destruct (VariantB.handleSubmit_resume eng o st) as [st' es]. cbn in He.
      subst es. by injection Hstep as <-.
  - destruct (tms !! i) as [[due []]|]; done.
  - destruct u as [|v]; cbn in Hstep.
    + destruct (VariantB.disabled st); [done|].
      destruct (handleSubmit_B_cases st) as [[_ E]|[Hp E]]; rewrite E in Hstep;
        injection Hstep as <-; cbn; [done|].
      apply Forall_app. split; [done|]. apply Forall_singleton.
      by exists (VariantB.prompt st).
    + destruct (VariantB.disabled st); [done|]. by injection Hstep as <-.
Qed.

(** X6.  Variant B, in every reachable world, every call ever issued is
    either the GET of the supervisor's [/health] or a POST of a prompt that
    is not blank to the supervisor.  The page sends nothing else, and never
    posts a blank prompt. *)
Theorem variant_B_sends_only_these (eng : Engine) (w : worldB eng) :
  reachable w → Forall sent_by_B (issued w).
Proof.
  apply (reachable_invariant (λ w, Forall sent_by_B (issued w))).
  - intros t0. by repeat constructor.
  - intros w1 ev w2. apply sent_B_step.
Qed.

(** ** The indicators are a snapshot *)

Lemma loading_while_probe_in_flight (w : worldA) id c name rest :
  probes_in_sequence w →
  issued w !! id = Some c →
  call_k c = VariantA.AwaitProbe name rest →
  call_outcome c = None →
  VariantA.statuses (ui w) !! name = Some StatusLoading.
Proof.
  intros (t0 & outs & Htrace & Hind) Hid Hk Hout. unfold probe_trace in Htrace.
  assert (Hv : probe_view c = Some (name, rest, call_time c, None))
    by (unfold probe_view; by rewrite Hk, Hout).
  rewrite (omap_split_at probe_view _ id c Hid), Hv in Htrace. cbn in Htrace.
  symmetry in Htrace.
  destruct (sequential_pending _ _ _ _ _ _ _ _ Htrace) as (_ & _ & (url & Hurl) & _).
  rewrite (Hind _ _ _ Hurl). unfold indicator.
  by rewrite lookup_ge_None_2.
Qed.

Lemma indicator_kept_A (w w' : worldA) ev name s :
  probes_in_sequence w →
  VariantA.statuses (ui w) !! name = Some s →
  s ≠ StatusLoading →
  step w ev = Some w' →
  VariantA.statuses (ui w') !! name = Some s.
Proof.
  intros Hseq Hs Hne Hstep.
  pose proof (loading_while_probe_in_flight w) as Hload.
  stepA Hstep; cbn [ui now issued timers] in *.
  - by injection Hstep as <-.
  - destruct (calls !! id) as [c|] eqn:Hid; [|done].
    destruct (call_outcome c) eqn:Hout; [done|].
    specialize (Hload id c).
    destruct (call_k c) as [b|name' rest|] eqn:Hk; cbn in Hstep.
    + injection Hstep as <-. destruct (fetchLogs_resume_frame o st) as (_ & _ & E).
      destruct b; cbn; by rewrite E.
    + injection Hstep as <-. rewrite perform_ui. cbn.
      rewrite lookup_insert_ne; [done|].
      intros <-. specialize (Hload name' rest Hseq Hid eq_refl Hout).
      congruence.
    + destruct (handleSubmit_resume_cases o st) as [[_ E]|(err & _ & E)];
        rewrite E in Hstep; by injection Hstep as <-.
  - destruct (tms !! i) as [[due cb]|] eqn:Hi; [|done].
    destruct (due <=? tnow); [|done]. destruct cb. cbn in Hstep.
    by injection Hstep as <-.
  - destruct u as [|v|]; cbn in Hstep.
    + destruct (VariantA.disabled st); [done|].
      destruct (handleSubmit_A_cases st) as [[_ E]|[_ E]]; rewrite E in Hstep;
        by injection Hstep as <-.
    + destruct (VariantA.disabled st); [done|]. by injection Hstep as <-.
    + by injection Hstep as <-.
Qed.

(** X7.  Variant A: the status of a service is taken once.  From a
    reachable world on, an indicator that shows ['ok'] or ['error'] shows
    the same after any events whatever: no probe is repeated, and no
    submission, log fetch or failure of theirs touches it. *)
Theorem settled_indicator_never_changes_A
    (w w' : worldA) (evs : list (event VariantA.app)) (name : string) (s : ServiceStatus) :
  reachable w →
  VariantA.statuses (ui w) !! name = Some s →
  s ≠ StatusLoading →
  run w evs = Some w' →
  VariantA.statuses (ui w') !! name = Some s.
Proof.
  intros Hreach Hs Hne Hrun.
  apply (run_invariant
           (λ x, probes_in_sequence x ∧ VariantA.statuses (ui x) !! name = Some s)
           w evs w'); [|by split; [apply probes_invariant|] | done].
  intros w1 ev w2 [Hseq Hs1] Hstep. split.
  - by apply (probes_step w1 w2 ev).
  - by apply (indicator_kept_A w1 w2 ev).
Qed.

Lemma indicator_kept_B eng (w w' : worldB eng) ev name s :
  probed_once w →
  VariantB.statuses (ui w) !! name = Some s →
  s ≠ StatusLoading →
  step w ev = Some w' →
  VariantB.statuses (ui w') !! name = Some s.
Proof.
  intros (t0 & out & Htrace & Hst) Hs Hne Hstep. unfold probe_trace_B in Htrace.
  stepB Hstep; cbn [ui now issued timers] in *.
  - by injection Hstep as <-.
  - destruct (calls !! id) as [c|] eqn:Hid; [|done].
    destruct (call_outcome c) eqn:Hout; [done|].
    destruct (call_k c) eqn:Hk; cbn in Hstep.
    + exfalso.
      assert (Hv : probe_view_B c = Some (call_time c, None))
        by (unfold probe_view_B; by rewrite Hk, Hout).
      rewrite (omap_split_at probe_view_B calls id c Hid), Hv in Htrace. cbn in Htrace.
      destruct (omap probe_view_B (take id calls)) as [|x xs];
        cbn in Htrace; [|by destruct xs].
      injection Htrace as _ <- _. rewrite Hst in Hs. cbn in Hs.
      apply lookup_singleton_Some in Hs as [_ Hs]. congruence.
    + destruct (handleSubmit_B_resume_frame eng o st) as (He & E & _).
      destruct (VariantB.handleSubmit_resume eng o st) as [st' es]. cbn in He, E.
      subst es. injection Hstep as <-. cbn. by rewrite E.
  - destruct (tms !! i) as [[due []]|]; done.
  - destruct u as [|v]; cbn in Hstep.
    + destruct (VariantB.disabled st); [done|].
      destruct (handleSubmit_B_cases st) as [[_ E]|[_ E]]; rewrite E in Hstep;
        by injection Hstep as <-.
    + destruct (VariantB.disabled st); [done|]. by injection Hstep as <-.
Qed.

(** X8.  Variant B: the status of the supervisor is taken once.  From a
    reachable world on, an indicator that shows ['ok'] or ['error'] shows
    the same after any events whatever. *)
Theorem settled_indicator_never_changes_B
    (eng : Engine) (w w' : worldB eng) (evs : list (event (VariantB.app eng)))
    (name : string) (s : ServiceStatus) :
  reachable w →
  VariantB.statuses (ui w) !! name = Some s →
  s ≠ StatusLoading →
  run w evs = Some w' →
  VariantB.statuses (ui w') !! name = Some s.
Proof.
  intros Hreach Hs Hne Hrun.
  apply (run_invariant
           (λ x, probed_once x ∧ VariantB.statuses (ui x) !! name = Some s)
           w evs w'); [|by split; [apply probe_B_invariant|] | done].
  intros w1 ev w2 [Hone Hs1] Hstep. split.
  - by apply (probe_B_step eng w1 w2 ev).
  - by apply (indicator_kept_B eng w1 w2 ev).
Qed.

(** ** What a log fetch changes *)

Lemma fetchLogs_try_normal o data :
  VariantA.fetchLogs_try o = Normal data →
  ∃ r, o = Fulfilled r ∧ ok r = true ∧ json_body r = Normal data.
Proof.
  unfold VariantA.fetchLogs_try. destruct o as [r|e]; cbn; [|done].
  destruct (ok r) eqn:Hok; cbn; [|done]. intros Hb. by exists r.
Qed.

(** X9.  Variant A, for every call of [fetchLogs] and every way its fetch
    can settle: the prompt and the indicators are left alone; the logs
    change only when the response is ok and its body parses, and then the
    error message is left as it was, so a message of an earlier failure
    stays on the page after a good fetch; the error changes only to a
    message, never to none, and then the logs are left as they were; the
    form is re-enabled by the call of line 106 and left alone by the
    others; nothing further is issued. *)
Theorem fetchLogs_changes_logs_or_error
    (t : N) (and_finally : bool) (o : settled) (st : VariantA.Home) :
  let st' := (VariantA.on_settle t (VariantA.AwaitLogs and_finally) o st).1 in
  VariantA.prompt st' = VariantA.prompt st
  ∧ VariantA.statuses st' = VariantA.statuses st
  ∧ VariantA.isLoading st' = (if and_finally then false else VariantA.isLoading st)
  ∧ (VariantA.on_settle t (VariantA.AwaitLogs and_finally) o st).2 = []
  ∧ (VariantA.logs st' ≠ VariantA.logs st →
       VariantA.error st' = VariantA.error st
       ∧ ∃ r, o = Fulfilled r ∧ ok r = true ∧ json_body r = Normal (VariantA.logs st'))
  ∧ (VariantA.error st' ≠ VariantA.error st →
       VariantA.logs st' = VariantA.logs st ∧ is_Some (VariantA.error st')).
Proof.
  cbn. unfold VariantA.fetchLogs_resume.
  destruct (VariantA.fetchLogs_try o) as [data|err] eqn:Htry.
  - apply fetchLogs_try_normal in Htry.
    destruct and_finally; cbn; repeat split; try done.
  - destruct and_finally; cbn; repeat split; try done; by eexists.
Qed.

(** ** A failed submission in Variant A *)

Lemma handleSubmit_try_failed o :
  failed o →
  VariantA.handleSubmit_try o
  = Throw match o with
          | Rejected e => e
          | Fulfilled r =>
              ErrorObj (lit "Supervisor request failed with status " ++ status_text r)
          end.
Proof.
  unfold VariantA.handleSubmit_try.
  intros [(e & ->) | (r & -> & Hok)]; cbn; [done|]. by rewrite Hok.
Qed.

Lemma idle_step n (w w' : worldA) ev :
  idle n w → not_submit ev → step w ev = Some w' → idle n w'.
Proof.
  intros (Ht & Hh & Hr & Hl & Hn) Hns Hstep.
  destruct (step_classify n w w' ev Hn Hns Hstep)
    as [(Ht' & Hh' & Hr' & Hl' & _ & Hlen)
       | [(i & due & -> & Hi & _) | (id & o & c & -> & Hid & Hc & _)]].
  - unfold idle. rewrite Ht', Hh', Hr', Hl'. repeat split; try done. lia.
  - by rewrite Ht in Hi.
  - unfold holders in Hh.
    by destruct (holders_settle_holder _ id c (now w) o [] Hid Hc Hh (le_S _ _ (le_n 0))).
Qed.

Lemma failure_leaves_idle (w : worldA) id c o :
  reachable w →
  issued w !! id = Some c →
  call_k c = VariantA.AwaitPost →
  call_outcome c = None →
  failed o →
  ∃ w1, step w (Settle id o) = Some w1
    ∧ idle (length (issued w)) w1
    ∧ ui w1 = VariantA.setIsLoading false
                (VariantA.setError
                   (Some match o with
                         | Rejected e => message_or e (lit "Failed to submit prompt")
                         | Fulfilled r =>
                             lit "Supervisor request failed with status " ++ status_text r
                         end) (ui w)).
Proof.
  intros Hreach Hid Hk Hout Hfail.
  pose proof (busy_invariant w Hreach) as Hbusy.
  assert (Hh : holds_lock c = true) by (unfold holds_lock; by rewrite Hout, Hk).
  destruct w as [st tnow calls tms]. unfold tokens, holders in Hbusy.
  cbn [ui now issued timers] in *.
  assert (Hin : c ∈ filter (λ c, holds_lock c = true) calls).
  { apply list_elem_of_filter. split; [done|]. by eapply list_elem_of_lookup_2. }
  assert (Hone : (length (filter (λ c, holds_lock c = true) calls) ≤ 1)%nat ∧ tms = []).
  { assert (1 ≤ length (filter (λ c, holds_lock c = true) calls))%nat as Hge.
    { destruct (filter (λ c, holds_lock c = true) calls);
        [by apply elem_of_nil in Hin | cbn; lia]. }
    cbn in *. destruct (VariantA.isLoading st); [|lia].
    destruct tms; cbn in Hbusy; [|lia]. split; [lia|done]. }
  destruct Hone as (Hlen & ->).
  destruct (holders_settle_holder calls id c tnow o _ Hid Hh eq_refl Hlen) as [_ Hnone].
  unfold step. cbn [ui now issued timers resume VariantA.app].
  rewrite Hid, Hout, Hk. cbn [VariantA.on_settle].
  unfold VariantA.handleSubmit_resume. rewrite (handleSubmit_try_failed o Hfail).
  eexists. split; [reflexivity|]. cbn. split.
  - unfold idle, holders, refetch_times. cbn [ui now issued timers].
    repeat split; try done.
    + rewrite drop_ge by (by rewrite length_insert). done.
    + by rewrite length_insert.
  - by destruct o.
Qed.

(** X10.  Variant A: when the POST of a submission is rejected, or comes
    back with a status that is not 2xx, the form is re-enabled at once with
    the message of the rejection or "Supervisor request failed with status
    N", and nothing is scheduled: over any later events other than a new
    submission no timer is pending, the log feed is never re-fetched by the
    flow, and the form stays enabled. *)
Theorem failed_submission_schedules_nothing
    (w : worldA) (id : nat) (c : callA) (o : settled) :
  reachable w →
  issued w !! id = Some c →
  call_k c = VariantA.AwaitPost →
  call_outcome c = None →
  failed o →
  ∃ w1, step w (Settle id o) = Some w1
    ∧ VariantA.isLoading (ui w1) = false
    ∧ VariantA.error (ui w1)
      = Some match o with
             | Rejected e => message_or e (lit "Failed to submit prompt")
             | Fulfilled r => lit "Supervisor request failed with status " ++ status_text r
             end
    ∧ ∀ evs w2, Forall not_submit evs → run w1 evs = Some w2 →
        timers w2 = []
        ∧ refetch_times (length (issued w)) w2 = []
        ∧ pending_refetches w2 = []
        ∧ VariantA.isLoading (ui w2) = false.
Proof.
  intros Hreach Hid Hk Hout Hfail.
  destruct (failure_leaves_idle w id c o Hreach Hid Hk Hout Hfail)
    as (w1 & Hstep & Hidle & Hui).
  exists w1. split; [done|]. rewrite Hui. split; [done|]. split; [done|].
  intros evs w2 Hns Hrun.
  assert (Hidle2 : idle (length (issued w)) w2).
  { apply (run_invariant_where not_submit (idle (length (issued w))) w1 evs w2);
      try done.
    intros x ev y Hev Hx Hs. by apply (idle_step _ x y ev). }
  destruct Hidle2 as (Ht & Hh & Hr & Hl & _).
  rewrite pending_refetches_holders, Hh. done.
Qed.

(** ** A submission from start to end *)

Lemma step_settle {app} (w : World app) id c o :
  issued w !! id = Some c →
  call_outcome c = None →
  step w (Settle id o)
  = Some (perform app (resume app (now w) (call_k c) o (ui w)).2
            (Build_World app (resume app (now w) (call_k c) o (ui w)).1 (now w)
               (<[id := settle_call app (now w) o c]> (issued w)) (timers w))).
Proof.
  intros Hid Hout. unfold step. rewrite Hid, Hout.
  by destruct (resume app (now w) (call_k c) o (ui w)).
Qed.

Lemma lookup_last_issued {A} (l : list A) (x : A) : (l ++ [x]) !! length l = Some x.
Proof. by rewrite lookup_app_r, Nat.sub_diag. Qed.

Lemma not_succeeded_throws eng o :
  ¬ succeeded o → ∃ err, VariantB.handleSubmit_try eng o = Throw err.
Proof.
  intros Hns. destruct o as [r|e]; [|by exists e].
  destruct (ok r) eqn:Hok.
  - unfold VariantB.handleSubmit_try. cbn. rewrite Hok. cbn.
    destruct (json_body r) as [data|err] eqn:Hb; [|by exists err].
    destruct Hns. by exists r, data.
  - rewrite handleSubmit_B_try_failed by done. apply failed_response_throws.
Qed.

(** X11.  Variant B, from any world whose form is enabled and whose prompt
    is not blank: a submission answered by a 2xx response with a JSON body
    ends with that value as the last response, the prompt empty, no error
    (an error of an earlier submission is gone), the form enabled and the
    indicator untouched.  The panel prints the value unless it is falsy
    ([null], [false], [0], [""]): then the page shows neither a result nor
    an error. *)
Theorem submission_B_answered
    (eng : Engine) (w : worldB eng) (r : Response) (data : json) :
  VariantB.isLoading (ui w) = false →
  whitespace_only (VariantB.prompt (ui w)) = false →
  ok r = true →
  json_body r = Normal data →
  ∃ w', run w [VariantB.user eng VariantB.Submit;
               Settle (length (issued w)) (Fulfilled r)] = Some w'
    ∧ VariantB.lastResponse (ui w') = data
    ∧ VariantB.ResponseViewer (VariantB.lastResponse (ui w'))
      = (if truthy data then Some data else None)
    ∧ VariantB.prompt (ui w') = []
    ∧ VariantB.error (ui w') = None
    ∧ VariantB.error_line (ui w') = None
    ∧ VariantB.isLoading (ui w') = false
    ∧ VariantB.statuses (ui w') = VariantB.statuses (ui w).
Proof.
  intros Hl Hp Hok Hbody. cbn [run].
  rewrite (step_submit_B eng w Hp Hl).
  rewrite (step_settle _ _ (post_call_B eng (now w) (VariantB.prompt (ui w))))
    by (try apply lookup_last_issued; done).
  cbn [ui now issued timers resume VariantB.app call_k post_call_B VariantB.on_settle].
  rewrite (handleSubmit_B_resume_ok eng _ r data Hok Hbody).
  eexists. split; [reflexivity|]. cbn. repeat split.
Qed.

(** X12.  Variant B, from any world whose form is enabled and whose prompt
    is not blank: a submission that ends in any other way (the fetch is
    rejected, the status is not 2xx, or the body of a 2xx response does not
    parse) keeps the prompt as typed, leaves the result panel empty (the
    result of an earlier submission is gone), sets the error state,
    re-enables the form and leaves the indicator untouched. *)
Theorem submission_B_not_answered
    (eng : Engine) (w : worldB eng) (o : settled) :
  VariantB.isLoading (ui w) = false →
  whitespace_only (VariantB.prompt (ui w)) = false →
  ¬ succeeded o →
  ∃ w' m, run w [VariantB.user eng VariantB.Submit;
                 Settle (length (issued w)) o] = Some w'
    ∧ VariantB.error (ui w') = Some m
    ∧ VariantB.prompt (ui w') = VariantB.prompt (ui w)
    ∧ VariantB.lastResponse (ui w') = JNull
    ∧ VariantB.ResponseViewer (VariantB.lastResponse (ui w')) = None
    ∧ VariantB.isLoading (ui w') = false
    ∧ VariantB.statuses (ui w') = VariantB.statuses (ui w).
Proof.
  intros Hl Hp Hns. cbn [run].
  destruct (not_succeeded_throws eng o Hns) as [err Herr].
  rewrite (step_submit_B eng w Hp Hl).
  rewrite (step_settle _ _ (post_call_B eng (now w) (VariantB.prompt (ui w))))
    by (try apply lookup_last_issued; done).
  cbn [ui now issued timers resume VariantB.app call_k post_call_B VariantB.on_settle].
  rewrite (handleSubmit_B_resume_throw eng o _ err Herr).
  eexists _, _. split; [reflexivity|]. cbn. repeat split.
Qed.

Lemma no_timer_when_enabled (w : worldA) :
  reachable w → VariantA.isLoading (ui w) = false → timers w = [].
Proof.
  intros Hreach Hl. pose proof (busy_invariant w Hreach) as Hbusy.
  rewrite Hl in Hbusy. unfold tokens in Hbusy.
  destruct (timers w); [done | cbn in Hbusy; lia].
Qed.

Lemma handleSubmit_resume_ok st r :
  ok r = true →
  VariantA.handleSubmit_resume (Fulfilled r) st = (st, [SetTimeout VariantA.Refetch 8000]).
Proof.
  intros Hok. unfold VariantA.handleSubmit_resume, VariantA.handleSubmit_try.
  cbn. by rewrite Hok.
Qed.

(** The whole flow, whatever the re-fetch comes back with. *)
Lemma submission_A_runs (w : worldA) (r : Response) (o : settled) (d : N) :
  reachable w →
  VariantA.isLoading (ui w) = false →
  whitespace_only (VariantA.prompt (ui w)) = false →
  ok r = true →
  8000 ≤ d →
  ∃ calls,
    run w [VariantA.user VariantA.Submit;
           Settle (length (issued w)) (Fulfilled r);
           Tick d;
           Fire 0;
           Settle (S (length (issued w))) o]
    = Some (Build_World VariantA.app
              (VariantA.setIsLoading false
                 (VariantA.fetchLogs_resume o
                    (VariantA.setError None (VariantA.setIsLoading true (ui w)))))
              (now w + d) calls []).
Proof.
  intros Hreach Hl Hp Hok Hd.
  pose proof (no_timer_when_enabled w Hreach Hl) as Htm.
  cbn [run].
  rewrite (step_submit_A w Hp Hl).
  rewrite (step_settle _ _ (post_call_A (now w) (VariantA.prompt (ui w))))
    by (try apply lookup_last_issued; done).
  cbn [ui now issued timers resume VariantA.app call_k post_call_A VariantA.on_settle].
  rewrite (handleSubmit_resume_ok _ r Hok), Htm.
  cbn [perform foldl perform1 fst snd ui now issued timers app].
  unfold step at 1. cbn [ui now issued timers].
  unfold step at 1. cbn [ui now issued timers lookup list_lookup].
  assert (Hdue : (now w + 8000 <=? now w + d) = true) by (apply N.leb_le; lia).
  rewrite Hdue.
  cbn [fire VariantA.app VariantA.on_timer VariantA.fetchLogs perform foldl perform1
       ui now issued timers].
  rewrite (step_settle _ (S (length (issued w)))
             (Build_call VariantA.app (now w + d) (VariantA.logs_request (now w + d))
                (VariantA.AwaitLogs true) None)).
  - cbn [ui now issued timers resume VariantA.app call_k VariantA.on_settle].
    eexists. reflexivity.
  - cbn [issued]. rewrite lookup_app_r; rewrite length_insert, length_app; cbn.
    + by replace (S (length (issued w)) - (length (issued w) + 1))%nat with 0%nat by lia.
    + lia.
  - done.
Qed.

Lemma fetchLogs_not_succeeded o st :
  ¬ succeeded o →
  ∃ m, VariantA.fetchLogs_resume o st = VariantA.setError (Some m) st.
Proof.
  intros Hns. unfold VariantA.fetchLogs_resume.
  destruct (VariantA.fetchLogs_try o) as [data|err] eqn:Htry; [|by eexists].
  destruct Hns. apply fetchLogs_try_normal in Htry as (r & -> & Hok & Hb).
  by exists r, data.
Qed.

(** X13.  Variant A, from any reachable world whose form is enabled and
    whose prompt is not blank: submit, let the POST come back ok, let at
    least 8000 ms pass, let the timer go off, and let the re-fetch come
    back ok with a JSON body.  Every one of these steps can be taken, and
    at the end the logs are that body, the form is enabled, no error is
    shown (an error of an earlier failure is gone), the prompt is still
    what was typed, the indicators are untouched and no timer is left. *)
Theorem submission_A_answered
    (w : worldA) (r r' : Response) (data : json) (d : N) :
  reachable w →
  VariantA.isLoading (ui w) = false →
  whitespace_only (VariantA.prompt (ui w)) = false →
  ok r = true →
  8000 ≤ d →
  ok r' = true →
  json_body r' = Normal data →
  ∃ w', run w [VariantA.user VariantA.Submit;
               Settle (length (issued w)) (Fulfilled r);
               Tick d;
               Fire 0;
               Settle (S (length (issued w))) (Fulfilled r')] = Some w'
    ∧ VariantA.logs (ui w') = data
    ∧ VariantA.isLoading (ui w') = false
    ∧ VariantA.error (ui w') = None
    ∧ VariantA.prompt (ui w') = VariantA.prompt (ui w)
    ∧ VariantA.statuses (ui w') = VariantA.statuses (ui w)
    ∧ timers w' = []
    ∧ now w' = now w + d.
Proof.
  intros Hreach Hl Hp Hok Hd Hok' Hbody.
  destruct (submission_A_runs w r (Fulfilled r') d Hreach Hl Hp Hok Hd) as [calls Hrun].
  rewrite Hrun, (fetchLogs_resume_ok _ r' data Hok' Hbody).
  eexists. split; [reflexivity|]. cbn. repeat split.
Qed.

(** X18.  Variant A, the same flow when the re-fetch does not succeed (it
    is rejected, its status is not 2xx, or its body does not parse): every
    step can be taken, and at the end the form is enabled all the same,
    the logs are what they were, an error is set, the prompt is still what
    was typed and no timer is left. *)
Theorem submission_A_refetch_fails
    (w : worldA) (r : Response) (o : settled) (d : N) :
  reachable w →
  VariantA.isLoading (ui w) = false →
  whitespace_only (VariantA.prompt (ui w)) = false →
  ok r = true →
  8000 ≤ d →
  ¬ succeeded o →
  ∃ w' m, run w [VariantA.user VariantA.Submit;
                 Settle (length (issued w)) (Fulfilled r);
                 Tick d;
                 Fire 0;
                 Settle (S (length (issued w))) o] = Some w'
    ∧ VariantA.isLoading (ui w') = false
    ∧ VariantA.logs (ui w') = VariantA.logs (ui w)
    ∧ VariantA.error (ui w') = Some m
    ∧ VariantA.prompt (ui w') = VariantA.prompt (ui w)
    ∧ VariantA.statuses (ui w') = VariantA.statuses (ui w)
    ∧ timers w' = [].
Proof.
  intros Hreach Hl Hp Hok Hd Hns.
  destruct (submission_A_runs w r o d Hreach Hl Hp Hok Hd) as [calls Hrun].
  destruct (fetchLogs_not_succeeded o
              (VariantA.setError None (VariantA.setIsLoading true (ui w))) Hns)
    as [m Hm].
  rewrite Hrun, Hm. eexists _, m. split; [reflexivity|]. cbn. repeat split.
Qed.

(** ** The error field of a failed response, when it is not a string *)

(** X14.  Variant B, for a response that is not ok.  When the body is the
    JSON [null], reading its [error] throws and the message of that
    [TypeError] is shown.  When the [error] field is truthy and not a
    string, the message is its conversion to a string (a number gives its
    digits, [true] gives "true", an array its elements joined by commas, a
    plain object "[object Object]"); when that conversion throws, the
    message of what it throws is shown. *)
Theorem error_field_of_another_type
    (eng : Engine) (st : VariantB.Home) (r : Response) :
  ok r = false →
  let st' := (VariantB.handleSubmit_resume eng (Fulfilled r) st).1 in
  (json_body r = Normal JNull →
     VariantB.error st' = Some (null_property_message eng))
  ∧ (∀ v x m, json_body r = Normal v → Wording.error_field v = Some x →
       truthy x = true → to_string eng x = Normal m →
       VariantB.error st' = Some m)
  ∧ (∀ v x e, json_body r = Normal v → Wording.error_field v = Some x →
       truthy x = true → to_string eng x = Throw e →
       VariantB.error st' = Some (message_or e (lit "Failed to submit prompt"))).
Proof.
  intros Hok st'. subst st'. repeat split.
  - intros Hbody.
    rewrite (handleSubmit_B_resume_throw eng _ st (ErrorObj (null_property_message eng)));
      [done|].
    rewrite handleSubmit_B_try_failed by done.
    unfold VariantB.failed_response. by rewrite Hbody.
  - intros v x m Hbody Hf Ht Hs.
    assert (Hn : v ≠ JNull) by (intros ->; discriminate).
    rewrite (handleSubmit_B_resume_throw eng _ st (ErrorObj m)); [done|].
    rewrite handleSubmit_B_try_failed by done.
    unfold VariantB.failed_response. rewrite Hbody. cbn [catch_with].
    rewrite (get_error_not_null eng v Hn), Hf. cbn.
    unfold new_Error. rewrite Ht, Hs. done.
  - intros v x e Hbody Hf Ht Hs.
    assert (Hn : v ≠ JNull) by (intros ->; discriminate).
    rewrite (handleSubmit_B_resume_throw eng _ st e); [done|].
    rewrite handleSubmit_B_try_failed by done.
    unfold VariantB.failed_response. rewrite Hbody. cbn [catch_with].
    rewrite (get_error_not_null eng v Hn), Hf. cbn.
    unfold new_Error. rewrite Ht, Hs. done.
Qed.

(** ** Clicking the toggle [n] times *)

(** X15.  [LogItem]: [n] clicks in a row can always be taken; they leave the
    entry as it was when [n] is even and in the other state when [n] is
    odd, with the details shown exactly when it ends expanded; they issue
    no call, start no timer and take no time. *)
Theorem clicks_compose_by_parity
    (toLocaleString : jstring → jstring)
    (log : LogItem.Log) (n : nat) (w : World LogItem.app) :
  ∃ w', run w (replicate n (LogItem.user LogItem.Click)) = Some w'
    ∧ ui w' = xorb (Nat.odd n) (ui w)
    ∧ LogItem.details (LogItem.render toLocaleString log (ui w'))
      = (if xorb (Nat.odd n) (ui w) then Some (LogItem.ai_outputs log) else None)
    ∧ issued w' = issued w
    ∧ timers w' = timers w
    ∧ now w' = now w.
Proof.
  revert w. induction n as [|n IH]; intros w.
  - exists w. repeat split; cbn; by destruct (ui w).
  - destruct w as [s t calls tms].
    destruct (IH (Build_World LogItem.app (negb s) t calls tms))
      as (w' & Hrun & Hui & Hd & Hi & Ht & Hn).
    exists w'. cbn [replicate run]. unfold step at 1. cbn.
    cbn in Hrun, Hui, Hd, Hi, Ht, Hn.
    unfold with_ui. cbn [ui now issued timers].
    rewrite Hrun. rewrite Nat.odd_succ, <- Nat.negb_odd.
    assert (Hx : xorb (negb (Nat.odd n)) s = xorb (Nat.odd n) (negb s))
      by (by destruct (Nat.odd n), s).
    rewrite Hx. repeat split; done.
Qed.

(** ** The cache-busting parameter *)

Lemma lit_inj s s' : lit s = lit s' → s = s'.
Proof.
  revert s'. induction s as [|a s IH]; intros [|a' s']; cbn; try done.
  intros [= Ha Hs]. f_equal; [|by apply IH].
  by rewrite <- (ascii_N_embedding a), <- (ascii_N_embedding a'), Ha.
Qed.

Lemma logs_request_inj t t' :
  req_url (VariantA.logs_request t) = req_url (VariantA.logs_request t') → t = t'.
Proof.
  unfold VariantA.logs_request. cbn [req_url]. intros H.
  apply app_inv_head in H. apply app_inv_head in H.
  apply lit_inj in H. by apply (inj pretty) in H.
Qed.

(** X16.  Variant A, in every reachable world: two fetches of the log feed
    that were issued at different times have different URLs, whichever
    call sites made them (mount, refresh button, timer). *)
Theorem log_fetches_at_different_times_differ
    (w : worldA) (i j : nat) (c c' : callA) (b b' : bool) :
  reachable w →
  issued w !! i = Some c →
  issued w !! j = Some c' →
  call_k c = VariantA.AwaitLogs b →
  call_k c' = VariantA.AwaitLogs b' →
  call_time c ≠ call_time c' →
  req_url (call_request c) ≠ req_url (call_request c').
Proof.
  intros Hreach Hi Hj Hk Hk' Hne Heq.
  pose proof (sent_A_invariant w Hreach) as Hsent.
  pose proof (Forall_lookup_1 _ _ _ _ Hsent Hi) as Hc.
  pose proof (Forall_lookup_1 _ _ _ _ Hsent Hj) as Hc'.
  unfold sent_by_A in Hc, Hc'. rewrite Hk in Hc. rewrite Hk' in Hc'.
  rewrite Hc, Hc' in Heq. by apply logs_request_inj in Heq.
Qed.

(** ** No probe is repeated *)

(** X17.  Variant A, in every reachable world: no service has been probed
    twice and at most as many probes have been issued as there are
    configured services; a probe that failed is not retried and nothing
    polls again. *)
Theorem no_probe_is_repeated (w : worldA) :
  reachable w →
  NoDup ((λ p, p.1.1.1) <$> probe_trace w)
  ∧ (length (probe_trace w) ≤ length VariantA.services)%nat.
Proof.
  intros Hreach.
  destruct (probes_invariant w Hreach) as (t0 & outs & Htrace & _).
  pose proof (sequential_names t0 VariantA.services outs) as Hnames.
  rewrite <- Htrace in Hnames. split.
  - rewrite Hnames.
    apply (sublist_NoDup _ VariantA.services.*1);
      [apply services_names_distinct | apply sublist_take].
  - apply (f_equal length) in Hnames.
    rewrite length_fmap, length_take, length_fmap in Hnames. lia.
Qed.

(** ** A result or an error, never both *)

Lemma post_in_flight_means_loading eng (w : worldB eng) id c :
  length (posts_in_flight_B w) = (if VariantB.isLoading (ui w) then 1 else 0)%nat →
  issued w !! id = Some c →
  call_k c = VariantB.AwaitPost →
  call_outcome c = None →
  VariantB.isLoading (ui w) = true.
Proof.
  intros Hbusy Hid Hk Hout. unfold posts_in_flight_B in Hbusy.
  assert (Hin : c ∈ filter (λ c, post_in_flight_B c = true) (issued w)).
  { apply list_elem_of_filter. split; [|by eapply list_elem_of_lookup_2].
    unfold post_in_flight_B. by rewrite Hout, Hk. }
  destruct (VariantB.isLoading (ui w)); [done|].
  destruct (filter _ (issued w)); [by apply elem_of_nil in Hin | done].
Qed.

Lemma exclusive_B_step eng (w w' : worldB eng) ev :
  length (posts_in_flight_B w) = (if VariantB.isLoading (ui w) then 1 else 0)%nat →
  (VariantB.isLoading (ui w) = true →
     VariantB.error (ui w) = None ∧ VariantB.lastResponse (ui w) = JNull) →
  (is_Some (VariantB.error (ui w)) → VariantB.lastResponse (ui w) = JNull) →
  step w ev = Some w' →
  (VariantB.isLoading (ui w') = true →
     VariantB.error (ui w') = None ∧ VariantB.lastResponse (ui w') = JNull)
  ∧ (is_Some (VariantB.error (ui w')) → VariantB.lastResponse (ui w') = JNull).
Proof.
  intros Hbusy Hload Herr Hstep.
  pose proof (post_in_flight_means_loading eng w) as Hpost.
  stepB Hstep; cbn [ui now issued timers] in *.
  - by injection Hstep as <-.
  - destruct (calls !! id) as [c|] eqn:Hid; [|done].
    destruct (call_outcome c) eqn:Hout; [done|].
    specialize (Hpost id c Hbusy Hid).
    destruct (call_k c) eqn:Hk; cbn in Hstep.
    + by injection Hstep as <-.
    + destruct (Hload (Hpost eq_refl Hout)) as [He Hr].
      unfold VariantB.handleSubmit_resume in Hstep.
      destruct (VariantB.handleSubmit_try eng o); injection Hstep as <-; cbn.
      * split; [done|]. rewrite He. by intros [? ?].
      * split; done.
  - destruct (tms !! i) as [[due []]|]; done.
  - destruct u as [|v]; cbn in Hstep.
    + destruct (VariantB.disabled st); [done|].
      destruct (handleSubmit_B_cases st) as [[_ E]|[_ E]]; rewrite E in Hstep;
        injection Hstep as <-; cbn; [done|].
      split; [done|]. by intros [? ?].
    + destruct (VariantB.disabled st); [done|]. by injection Hstep as <-.
Qed.

(** X19.  Variant B, in every reachable world: while a submission is under
    way the page shows neither an error nor a result, and whenever an
    error is set the result panel is empty.  The page never shows the
    result of one submission together with the error of another. *)
Theorem never_a_result_with_an_error (eng : Engine) (w : worldB eng) :
  reachable w →
  (VariantB.isLoading (ui w) = true →
     VariantB.error (ui w) = None ∧ VariantB.lastResponse (ui w) = JNull)
  ∧ (is_Some (VariantB.error (ui w)) →
     VariantB.lastResponse (ui w) = JNull
     ∧ VariantB.ResponseViewer (VariantB.lastResponse (ui w)) = None).
Proof.
  intros Hreach.
  assert (H : length (posts_in_flight_B w)
              = (if VariantB.isLoading (ui w) then 1 else 0)%nat
            ∧ (VariantB.isLoading (ui w) = true →
                 VariantB.error (ui w) = None ∧ VariantB.lastResponse (ui w) = JNull)
            ∧ (is_Some (VariantB.error (ui w)) → VariantB.lastResponse (ui w) = JNull)).
  { revert w Hreach.
    apply (reachable_invariant
             (λ w : worldB eng,
                length (posts_in_flight_B w)
                = (if VariantB.isLoading (ui w) then 1 else 0)%nat
                ∧ (VariantB.isLoading (ui w) = true →
                     VariantB.error (ui w) = None ∧ VariantB.lastResponse (ui w) = JNull)
                ∧ (is_Some (VariantB.error (ui w)) →
                     VariantB.lastResponse (ui w) = JNull))).
    - intros t0. repeat split; done.
    - intros w1 ev w2 (Hb & Hl & He) Hstep. split.
      + by apply (busy_B_step eng w1 w2 ev).
      + by apply (exclusive_B_step eng w1 w2 ev). }
  destruct H as (_ & Hl & He). split; [done|].
  intros Hsome. rewrite (He Hsome). done.
Qed.

(** ** The properties above at concrete inputs *)



(** X3 while "status report" is being posted. *)
Lemma one_submission_at_a_time_A_witness :
  (length (holders Examples.submitted_A) + length (timers Examples.submitted_A))%nat
  = (if VariantA.isLoading (ui Examples.submitted_A) then 1 else 0)%nat.
Proof.
  apply (one_submission_at_a_time_A Examples.submitted_A).
  exists 0, [VariantA.user (VariantA.Change Examples.status_report);
             Tick 10; VariantA.user VariantA.Submit].
  reflexivity.
Defined.

(** X4 while "status report" is being posted. *)
Lemma one_submission_at_a_time_B_witness :
  length (posts_in_flight_B Examples.submitted_B)
  = (if VariantB.isLoading (ui Examples.submitted_B) then 1 else 0)%nat.
Proof.
  apply (one_submission_at_a_time_B v8 Examples.submitted_B).
  exists 0, [VariantB.user v8 (VariantB.Change Examples.status_report); Tick 10;
             VariantB.user v8 VariantB.Submit].
  reflexivity.
Defined.

(** X5 while "status report" is being posted. *)
Lemma variant_A_sends_only_these_witness :
  Forall sent_by_A (issued Examples.submitted_A).
Proof.
  apply (variant_A_sends_only_these Examples.submitted_A).
  exists 0, [VariantA.user (VariantA.Change Examples.status_report);
             Tick 10; VariantA.user VariantA.Submit].
  reflexivity.
Defined.

(** X6 while "status report" is being posted. *)
Lemma variant_B_sends_only_these_witness :
  Forall sent_by_B (issued Examples.submitted_B).
Proof.
  apply (variant_B_sends_only_these v8 Examples.submitted_B).
  exists 0, [VariantB.user v8 (VariantB.Change Examples.status_report); Tick 10;
             VariantB.user v8 VariantB.Submit].
  reflexivity.
Defined.

(** X7: the supervisor's ['ok'] survives a failed submission. *)
Lemma settled_indicator_never_changes_A_witness :
  ∃ w', run Examples.probed_A Scenes.a_failed_submission = Some w'
    ∧ VariantA.statuses (ui w') !! "supervisor" = Some StatusOk.
Proof.
  eexists. split; [apply (run_default _ (boot _ 0)); vm_compute; reflexivity|].
  apply (settled_indicator_never_changes_A Examples.probed_A _
           Scenes.a_failed_submission "supervisor" StatusOk).
  - exists 0, [Tick 40; Settle 1 (Fulfilled Examples.ok200);
               Tick 30; Settle 2 (Rejected Examples.failed_to_fetch);
               Tick 20; Settle 3 (Fulfilled Examples.unavailable503)].
    apply run_default. vm_compute. reflexivity.
  - reflexivity.
  - discriminate.
  - apply run_default. vm_compute. reflexivity.
Defined.

(** X8: the supervisor's ['ok'] survives a failed submission. *)
Lemma settled_indicator_never_changes_B_witness :
  ∃ w', run Examples.probed_B Scenes.a_failed_submission_B = Some w'
    ∧ VariantB.statuses (ui w') !! "supervisor" = Some StatusOk.
Proof.
  eexists. split; [apply (run_default _ (boot _ 0)); vm_compute; reflexivity|].
  apply (settled_indicator_never_changes_B v8 Examples.probed_B _
           Scenes.a_failed_submission_B "supervisor" StatusOk).
  - exists 0, [Tick 40; Settle 0 (Fulfilled Examples.ok200)]. apply run_default. vm_compute. reflexivity.
  - reflexivity.
  - discriminate.
  - apply run_default. vm_compute. reflexivity.
Defined.


(** X9 at a good fetch after a failed one: the logs are replaced and the
    message stays; and at a failed fetch on the page that lists the
    earlier entry: the entry stays. *)
Lemma fetchLogs_changes_logs_or_error_witness :
  let failed_before := VariantA.setError (Some (lit "Failed to fetch logs"))
                         VariantA.initial_state in
  VariantA.error
    (VariantA.on_settle 50 (VariantA.AwaitLogs false)
       (Fulfilled Examples.ok_logs) failed_before).1
  = Some (lit "Failed to fetch logs")
  ∧ VariantA.logs
      (VariantA.on_settle 50 (VariantA.AwaitLogs false)
         (Fulfilled Examples.unavailable503) (ui Examples.listed_A)).1
    = JArr Examples.earlier_logs.
Proof.
  cbv zeta. split.
  - destruct (fetchLogs_changes_logs_or_error 50 false (Fulfilled Examples.ok_logs)
                (VariantA.setError (Some (lit "Failed to fetch logs"))
                   VariantA.initial_state))
      as (_ & _ & _ & _ & Hlogs & _).
    destruct Hlogs as [He _]; [discriminate|]. exact He.
  - destruct (fetchLogs_changes_logs_or_error 50 false
                (Fulfilled Examples.unavailable503) (ui Examples.listed_A))
      as (_ & _ & _ & _ & _ & Herr).
    destruct Herr as [Hl _]; [discriminate|]. exact Hl.
Defined.

(** X10 at "status report" answered with 503. *)
Lemma failed_submission_schedules_nothing_witness :
  ∃ w1, step Examples.submitted_A (Settle 2 (Fulfilled Examples.unavailable503)) = Some w1
    ∧ VariantA.isLoading (ui w1) = false
    ∧ VariantA.error (ui w1) = Some (lit "Supervisor request failed with status 503")
    ∧ ∀ evs w2, Forall not_submit evs → run w1 evs = Some w2 →
        timers w2 = []
        ∧ refetch_times (length (issued Examples.submitted_A)) w2 = []
        ∧ pending_refetches w2 = []
        ∧ VariantA.isLoading (ui w2) = false.
Proof.
  apply (failed_submission_schedules_nothing Examples.submitted_A 2 Examples.post_A
           (Fulfilled Examples.unavailable503)).
  - exists 0, [VariantA.user (VariantA.Change Examples.status_report);
               Tick 10; VariantA.user VariantA.Submit].
    reflexivity.
  - reflexivity.
  - reflexivity.
  - reflexivity.
  - right. exists Examples.unavailable503. split; reflexivity.
Defined.

(** X11 at "status report" answered with
    [200 {"agent1": "done", "agent2": "pending"}]. *)
Lemma submission_B_answered_witness :
  ∃ w', run Scenes.typed_B [VariantB.user v8 VariantB.Submit;
                            Settle 1 (Fulfilled Examples.ok_agents)] = Some w'
    ∧ VariantB.ResponseViewer (VariantB.lastResponse (ui w'))
      = Some (VariantB.AiOutputs Examples.agents)
    ∧ VariantB.prompt (ui w') = []
    ∧ VariantB.error (ui w') = None
    ∧ VariantB.isLoading (ui w') = false.
Proof.
  destruct (submission_B_answered v8 Scenes.typed_B Examples.ok_agents
              (VariantB.AiOutputs Examples.agents))
    as (w' & Hrun & Hr & Hv & Hp & He & _ & Hl & _); [reflexivity..|].
  exists w'. repeat split; assumption.
Defined.

(** X12 at "status report" answered with 503. *)
Lemma submission_B_not_answered_witness :
  ∃ w' m, run Scenes.typed_B [VariantB.user v8 VariantB.Submit;
                              Settle 1 (Fulfilled Examples.unavailable503)] = Some w'
    ∧ VariantB.error (ui w') = Some m
    ∧ VariantB.prompt (ui w') = Examples.status_report
    ∧ VariantB.ResponseViewer (VariantB.lastResponse (ui w')) = None
    ∧ VariantB.isLoading (ui w') = false.
Proof.
  destruct (submission_B_not_answered v8 Scenes.typed_B
              (Fulfilled Examples.unavailable503))
    as (w' & m & Hrun & He & Hp & _ & Hv & Hl & _).
  - reflexivity.
  - reflexivity.
  - intros (r & data & [= <-] & Hok & _). discriminate.
  - exists w', m. repeat split; assumption.
Defined.

(** X13 at "status report", answered with 200, and two log entries. *)
Lemma submission_A_answered_witness :
  ∃ w', run Examples.typed_A [VariantA.user VariantA.Submit;
                              Settle 2 (Fulfilled Examples.ok200);
                              Tick 8000;
                              Fire 0;
                              Settle 3 (Fulfilled Examples.ok_logs)] = Some w'
    ∧ VariantA.logs (ui w') = JArr Examples.two_logs
    ∧ VariantA.isLoading (ui w') = false
    ∧ VariantA.error (ui w') = None
    ∧ VariantA.prompt (ui w') = Examples.status_report.
Proof.
  destruct (submission_A_answered Examples.typed_A Examples.ok200 Examples.ok_logs
              (JArr Examples.two_logs) 8000)
    as (w' & Hrun & Hlogs & Hl & He & Hp & _).
  - exists 0, [VariantA.user (VariantA.Change Examples.status_report)].
    apply run_default. vm_compute. reflexivity.
  - reflexivity.
  - reflexivity.
  - reflexivity.
  - lia.
  - reflexivity.
  - reflexivity.
  - exists w'. repeat split; assumption.
Defined.

(** X14 at the bodies [null], [{"error": {"code": 7}}] and
    [{"error": {"toString": 1}}] with status 500. *)
Lemma error_field_of_another_type_witness :
  VariantB.error
    (VariantB.handleSubmit_resume v8
       (Fulfilled (Examples.http500 JNull)) VariantB.initial_state).1
  = Some (lit "Cannot read properties of null (reading 'error')")
  ∧ VariantB.error
      (VariantB.handleSubmit_resume v8
         (Fulfilled (Examples.http500 Scenes.object_error)) VariantB.initial_state).1
    = Some (lit "[object Object]")
  ∧ VariantB.error
      (VariantB.handleSubmit_resume v8
         (Fulfilled (Examples.http500 Scenes.unprintable_error)) VariantB.initial_state).1
    = Some (lit "Cannot convert object to primitive value").
Proof.
  split; [|split].
  - by apply (error_field_of_another_type v8 VariantB.initial_state
                (Examples.http500 JNull) eq_refl).
  - apply (error_field_of_another_type v8 VariantB.initial_state
             (Examples.http500 Scenes.object_error) eq_refl)
      with (v := Scenes.object_error)
           (x := JObj [(lit "code", JNum {| num_zero := false; num_text := lit "7" |})]);
      reflexivity.
  - apply (error_field_of_another_type v8 VariantB.initial_state
             (Examples.http500 Scenes.unprintable_error) eq_refl)
      with (v := Scenes.unprintable_error)
           (x := JObj [(lit "toString", JNum {| num_zero := false; num_text := lit "1" |})])
           (e := ErrorObj (lit "Cannot convert object to primitive value"));
      reflexivity.
Defined.

(** X16 at the fetch made on mount and the one made by the refresh button
    five milliseconds later. *)
Lemma log_fetches_at_different_times_differ_witness :
  req_url (call_request Scenes.first_fetch) ≠ req_url (call_request Scenes.second_fetch).
Proof.
  apply (log_fetches_at_different_times_differ Scenes.refreshed_A 0 2
           Scenes.first_fetch Scenes.second_fetch false false).
  - exists 0, [Tick 5; VariantA.user VariantA.Refresh]. apply run_default. vm_compute. reflexivity.
  - reflexivity.
  - reflexivity.
  - reflexivity.
  - reflexivity.
  - discriminate.
Defined.

(** X17 once the three probes have settled. *)
Lemma no_probe_is_repeated_witness :
  NoDup ((λ p, p.1.1.1) <$> probe_trace Examples.probed_A)
  ∧ (length (probe_trace Examples.probed_A) ≤ length VariantA.services)%nat.
Proof.
  apply (no_probe_is_repeated Examples.probed_A).
  exists 0, [Tick 40; Settle 1 (Fulfilled Examples.ok200);
             Tick 30; Settle 2 (Rejected Examples.failed_to_fetch);
             Tick 20; Settle 3 (Fulfilled Examples.unavailable503)].
  apply run_default. vm_compute. reflexivity.
Defined.

(** X18 at "status report", answered with 200, the re-fetch rejected. *)
Lemma submission_A_refetch_fails_witness :
  ∃ w' m, run Examples.typed_A [VariantA.user VariantA.Submit;
                                Settle 2 (Fulfilled Examples.ok200);
                                Tick 8000;
                                Fire 0;
                                Settle 3 (Rejected Examples.failed_to_fetch)] = Some w'
    ∧ VariantA.isLoading (ui w') = false
    ∧ VariantA.logs (ui w') = JArr []
    ∧ VariantA.error (ui w') = Some m.
Proof.
  destruct (submission_A_refetch_fails Examples.typed_A Examples.ok200
              (Rejected Examples.failed_to_fetch) 8000)
    as (w' & m & Hrun & Hl & Hlogs & He & _).
  - exists 0, [VariantA.user (VariantA.Change Examples.status_report)].
    apply run_default. vm_compute. reflexivity.
  - reflexivity.
  - reflexivity.
  - reflexivity.
  - lia.
  - intros (r & data & [=] & _).
  - exists w', m. repeat split; assumption.
Defined.

(** X19 while "status report" is being posted. *)
Lemma never_a_result_with_an_error_witness :
  (VariantB.isLoading (ui Examples.submitted_B) = true →
     VariantB.error (ui Examples.submitted_B) = None
     ∧ VariantB.lastResponse (ui Examples.submitted_B) = JNull)
  ∧ (is_Some (VariantB.error (ui Examples.submitted_B)) →
     VariantB.lastResponse (ui Examples.submitted_B) = JNull
     ∧ VariantB.ResponseViewer (VariantB.lastResponse (ui Examples.submitted_B)) = None).
Proof.
  apply (never_a_result_with_an_error v8 Examples.submitted_B).
  exists 0, [VariantB.user v8 (VariantB.Change Examples.status_report); Tick 10;
             VariantB.user v8 VariantB.Submit].
  reflexivity.
Defined.
